(** * TuneLite: the ColossalAI trainer's control flow

    A shallow embedding of [tunelite/trainer/colossalai_trainer.py] and of the
    top-level handler of [examples/train_colossalai.py].

    The external collaborators (the ColossalAI engine, torch, tqdm) are not
    modelled: a call into them is recorded as an event of a trace, in program
    order, and what they return is a parameter of the model. *)

From Stdlib Require Import ZArith DecimalString.
From Stdlib Require DecimalZ DecimalPos.
From stdpp Require Import base list gmap strings.
From Equations Require Import Equations.

Local Open Scope Z_scope.

(** ** Python helpers *)

(** [range(n)]: empty when [n <= 0]. *)
Definition py_range (n : Z) : list Z := Z.of_nat <$> seq 0 (Z.to_nat n).

(** ** [TrainerArgs]

    The three float fields ([learning_rate], [eval_top_p],
    [eval_temperature]) are read by no method embedded below and are left
    out. *)
Record TrainerArgs := {
  epochs : Z;
  eval_per_steps : Z;
  eval_per_epoches : Z;
  eval_max_length : Z;
  eval_stop_tokens : list Z
}.

(** The dataclass defaults. *)
Definition default_args : TrainerArgs :=
  {| epochs := 10; eval_per_steps := 10; eval_per_epoches := 1;
     eval_max_length := 128; eval_stop_tokens := [2] |}.

(** ** [ColossalaiTrainer.train] *)
Module Train.

(** The calls [train] makes, in program order.  [BarOpen] and [BarClose]
    are the entry and the exit of [with tqdm.tqdm(...)] in [train_loop],
    [ExecuteSchedule] is the forward and backward pass on a batch,
    [SetPostfix] is the progress-bar update of the last pipeline stage, and
    [Eval epoch step] is the call [self.eval(epoch, step)]. *)
Inductive event (B : Type) : Type :=
| EngineTrain
| BarOpen
| ZeroGrad
| ExecuteSchedule (batch : B)
| EngineStep
| EmptyCache
| SetPostfix (epoch step : Z)
| Eval (epoch step : Z)
| BarClose.
Arguments EngineTrain {B}.
Arguments BarOpen {B}.
Arguments ZeroGrad {B}.
Arguments ExecuteSchedule {B} batch.
Arguments EngineStep {B}.
Arguments EmptyCache {B}.
Arguments SetPostfix {B} epoch step.
Arguments Eval {B} epoch step.
Arguments BarClose {B}.

(** Whether [train] has returned, or is still inside [while True]. *)
Inductive status := Returned | Running.

(** *** A small input

    Two epochs over three batches, evaluating every second step and every
    second epoch. *)
Definition small_args : TrainerArgs :=
  {| epochs := 2; eval_per_steps := 2; eval_per_epoches := 2;
     eval_max_length := 128; eval_stop_tokens := [2] |}.

Definition small_dataloader : list Z := [100; 101; 102].

(** The endless loop, evaluating after every step and every epoch. *)
Definition forever_args : TrainerArgs :=
  {| epochs := -1; eval_per_steps := -1; eval_per_epoches := -1;
     eval_max_length := 128; eval_stop_tokens := [2] |}.

(** The cadence of the specification: every time when the period is [-1],
    every [n]-th time when it is positive. *)
Definition due (n k : Z) : Prop := n = -1 \/ (n > 0 /\ k mod n = 0).

(** How many of [1 .. len] are due under period [n]. *)
Definition due_count (n len : Z) : Z :=
  if n =? -1 then len else if n >? 0 then len / n else 0.

Section Trainer.
(** The batches [self.train_dataloader] yields, and
    [gpc.is_pipeline_last_stage()] on this process. *)
Context {B : Type}.
Variable train_dataloader : list B.
Variable is_pipeline_last_stage : bool.
Variable args : TrainerArgs.

Abbreviation trace := (list (event B)).

(** Lines 92-97: the chain after a training step. *)
Definition step_cadence (epoch step : Z) : trace :=
  if eval_per_steps args =? 0 then []
  else if eval_per_steps args =? -1 then [Eval epoch step]
  else if (eval_per_steps args >? 0) && (step mod eval_per_steps args =? 0)
       then [Eval epoch step]
  else [].

(** Lines 81-91: one training step, up to the progress-bar update. *)
Definition step_core (epoch step : Z) (batch : B) : trace :=
  [ZeroGrad; ExecuteSchedule batch; EngineStep; EmptyCache]
  ++ (if is_pipeline_last_stage then [SetPostfix epoch step] else []).

(** [for step, batch in enumerate(tqb, start=...)]. *)
Fixpoint train_steps (epoch step : Z) (batches : list B) : trace :=
  match batches with
  | [] => []
  | batch :: rest =>
      step_core epoch step batch ++ step_cadence epoch step
      ++ train_steps epoch (step + 1) rest
  end.

(** Lines 78-97. *)
Definition train_loop (epoch : Z) : trace :=
  [BarOpen] ++ train_steps epoch 1 train_dataloader ++ [BarClose].

(** Lines 105-110 and 114-119: the chain after an epoch.  [tested] is the
    number the source takes modulo [eval_per_epoches]; [epoch] is the
    argument it passes to [eval]. *)
Definition epoch_cadence (tested epoch : Z) : trace :=
  if eval_per_epoches args =? 0 then []
  else if eval_per_epoches args =? -1 then [Eval epoch 0]
  else if (eval_per_epoches args >? 0)
          && (tested mod eval_per_epoches args =? 0)
       then [Eval epoch 0]
  else [].

(** Lines 101-110: [fuel] rounds of [while True], from [epoch]. *)
Fixpoint while_true (fuel : nat) (epoch : Z) : trace :=
  match fuel with
  | O => []
  | S fuel' =>
      train_loop epoch
      ++ (let epoch := epoch + 1 in
          epoch_cadence epoch epoch ++ while_true fuel' epoch)
  end.

(** Lines 112-119: [for epoch in range(...)]. *)
Fixpoint for_epochs (range : list Z) : trace :=
  match range with
  | [] => []
  | epoch :: rest =>
      train_loop epoch ++ epoch_cadence (epoch + 1) epoch ++ for_epochs rest
  end.

(** Lines 76-119.  With [epochs = -1] the method does not return: the
    trace is the one of the first [fuel] rounds of the loop. *)
Definition train (fuel : nat) : trace * status :=
  if epochs args =? 0 then ([EngineTrain], Returned)
  else if epochs args =? -1 then (EngineTrain :: while_true fuel 0, Running)
  else if epochs args >? 0
       then (EngineTrain :: for_epochs (py_range (epochs args)), Returned)
  else ([EngineTrain], Returned).

(** *** Observations on a trace *)

Definition is_engine_step (e : event B) : bool :=
  match e with EngineStep => true | _ => false end.
Definition is_bar_open (e : event B) : bool :=
  match e with BarOpen => true | _ => false end.
Definition is_eval (e : event B) : bool :=
  match e with Eval _ _ => true | _ => false end.

(** How many times [self.engine.step()] was called. *)
Definition engine_steps (t : trace) : nat := length (filter is_engine_step t).
(** How many times [train_loop] was entered. *)
Definition loops_entered (t : trace) : nat := length (filter is_bar_open t).
(** How many times [self.eval] was called. *)
Definition evals (t : trace) : nat := length (filter is_eval t).

(** The next call is not [self.eval]. *)
Definition no_eval_next (t : trace) : Prop :=
  match t with
  | [] => True
  | e :: _ => is_eval e = false
  end.

(** *** The two cadence chains *)

Lemma step_cadence_cases (epoch step : Z) :
  (step_cadence epoch step = [Eval epoch step] /\ due (eval_per_steps args) step)
  \/ (step_cadence epoch step = [] /\ ~ due (eval_per_steps args) step).
Proof.
  unfold step_cadence, due.
  destruct (Z.eqb_spec (eval_per_steps args) 0) as [H0|H0]; [right; split; [done|lia]|].
  destruct (Z.eqb_spec (eval_per_steps args) (-1)) as [H1|H1]; [left; split; [done|lia]|].
  destruct (Z.gtb_spec (eval_per_steps args) 0) as [Hp|Hp]; simpl.
  - destruct (Z.eqb_spec (step mod eval_per_steps args) 0) as [Hm|Hm].
    + left; split; [done|lia].
    + right; split; [done|lia].
  - right; split; [done|lia].
Qed.

Lemma epoch_cadence_cases (tested epoch : Z) :
  (epoch_cadence tested epoch = [Eval epoch 0]
   /\ due (eval_per_epoches args) tested)
  \/ (epoch_cadence tested epoch = [] /\ ~ due (eval_per_epoches args) tested).
Proof.
  unfold epoch_cadence, due.
  destruct (Z.eqb_spec (eval_per_epoches args) 0) as [H0|H0]; [right; split; [done|lia]|].
  destruct (Z.eqb_spec (eval_per_epoches args) (-1)) as [H1|H1]; [left; split; [done|lia]|].
  destruct (Z.gtb_spec (eval_per_epoches args) 0) as [Hp|Hp]; simpl.
  - destruct (Z.eqb_spec (tested mod eval_per_epoches args) 0) as [Hm|Hm].
    + left; split; [done|lia].
    + right; split; [done|lia].
  - right; split; [done|lia].
Qed.

(** *** Counting calls *)

Lemma engine_steps_app (t u : trace) :
  engine_steps (t ++ u) = (engine_steps t + engine_steps u)%nat.
Proof. unfold engine_steps. by rewrite filter_app, length_app. Qed.

Lemma loops_entered_app (t u : trace) :
  loops_entered (t ++ u) = (loops_entered t + loops_entered u)%nat.
Proof. unfold loops_entered. by rewrite filter_app, length_app. Qed.

Lemma engine_steps_step_core (epoch step : Z) (batch : B) :
  engine_steps (step_core epoch step batch) = 1%nat.
Proof. unfold step_core. by destruct is_pipeline_last_stage. Qed.

Lemma engine_steps_step_cadence (epoch step : Z) :
  engine_steps (step_cadence epoch step) = 0%nat.
Proof. by destruct (step_cadence_cases epoch step) as [[-> _]|[-> _]]. Qed.

Lemma engine_steps_train_steps (epoch step : Z) (batches : list B) :
  engine_steps (train_steps epoch step batches) = length batches.
Proof.
  revert step. induction batches as [|b rest IH]; intros step; [done|].
  cbn [train_steps length].
  rewrite !engine_steps_app, engine_steps_step_core, engine_steps_step_cadence.
  by rewrite IH.
Qed.

Lemma loops_entered_train_steps (epoch step : Z) (batches : list B) :
  loops_entered (train_steps epoch step batches) = 0%nat.
Proof.
  revert step. induction batches as [|b rest IH]; intros step; [done|].
  cbn [train_steps]. rewrite !loops_entered_app, IH.
  unfold step_core.
  destruct (step_cadence_cases epoch step) as [[-> _]|[-> _]];
    by destruct is_pipeline_last_stage.
Qed.

Lemma loops_entered_train_loop (epoch : Z) :
  loops_entered (train_loop epoch) = 1%nat.
Proof.
  unfold train_loop.
  by rewrite !loops_entered_app, loops_entered_train_steps.
Qed.

Lemma loops_entered_epoch_cadence (tested epoch : Z) :
  loops_entered (epoch_cadence tested epoch) = 0%nat.
Proof. by destruct (epoch_cadence_cases tested epoch) as [[-> _]|[-> _]]. Qed.

Lemma loops_entered_for_epochs (range : list Z) :
  loops_entered (for_epochs range) = length range.
Proof.
  induction range as [|e rest IH]; [done|].
  cbn [for_epochs length].
  rewrite !loops_entered_app, loops_entered_train_loop,
    loops_entered_epoch_cadence, IH. done.
Qed.

Lemma loops_entered_while_true (fuel : nat) (epoch : Z) :
  loops_entered (while_true fuel epoch) = fuel.
Proof.
  revert epoch. induction fuel as [|fuel IH]; intros epoch; [done|].
  cbn [while_true].
  rewrite !loops_entered_app, loops_entered_train_loop,
    loops_entered_epoch_cadence, IH. done.
Qed.

(** *** Unrolling the loops *)

(** The step loop, cut at its [j]-th round (from 0). *)
Lemma train_steps_at (epoch : Z) (batches : list B) (step : Z) (j : nat) (batch : B) :
  batches !! j = Some batch ->
  train_steps epoch step batches
  = train_steps epoch step (take j batches)
    ++ step_core epoch (step + Z.of_nat j) batch
    ++ step_cadence epoch (step + Z.of_nat j)
    ++ train_steps epoch (step + Z.of_nat j + 1) (drop (S j) batches).
Proof.
  revert step j. induction batches as [|b rest IH]; intros step j Hj; [done|].
  destruct j as [|j]; simplify_eq/=.
  - by rewrite Z.add_0_r.
  - rewrite (IH (step + 1) j Hj), <- !app_assoc.
    by replace (step + 1 + Z.of_nat j) with (step + Z.pos (Pos.of_succ_nat j)) by lia.
Qed.

Lemma for_epochs_app (r1 r2 : list Z) :
  for_epochs (r1 ++ r2) = for_epochs r1 ++ for_epochs r2.
Proof.
  induction r1 as [|e r1 IH]; [done|].
  cbn [for_epochs app]. by rewrite IH, <- !app_assoc.
Qed.

(** The endless loop, cut after [j] rounds. *)
Lemma while_true_add (j fuel : nat) (epoch : Z) :
  while_true (j + fuel) epoch
  = while_true j epoch ++ while_true fuel (epoch + Z.of_nat j).
Proof.
  revert epoch. induction j as [|j IH]; intros epoch.
  - by rewrite Z.add_0_r.
  - cbn [while_true Nat.add]. rewrite IH, <- !app_assoc.
    by replace (epoch + 1 + Z.of_nat j) with (epoch + Z.of_nat (S j)) by lia.
Qed.

Lemma no_eval_next_train_steps (epoch step : Z) (batches : list B) (t : trace) :
  no_eval_next t -> no_eval_next (train_steps epoch step batches ++ t).
Proof. by destruct batches. Qed.

Lemma no_eval_next_for_epochs (range : list Z) : no_eval_next (for_epochs range).
Proof. by destruct range. Qed.

Lemma no_eval_next_while_true (fuel : nat) (epoch : Z) :
  no_eval_next (while_true fuel epoch).
Proof. by destruct fuel. Qed.

Lemma py_range_at (n k : Z) :
  1 <= k <= n ->
  py_range n
  = py_range (k - 1) ++ (k - 1) :: (Z.of_nat <$> seq (Z.to_nat k) (Z.to_nat (n - k))).
Proof.
  intros Hk. unfold py_range.
  replace (Z.to_nat n) with (Z.to_nat (k - 1) + S (Z.to_nat (n - k)))%nat by lia.
  rewrite seq_app, fmap_app. cbn [seq fmap list_fmap]. f_equal.
  rewrite Nat.add_0_l. f_equal; [lia|]. f_equal. f_equal. lia.
Qed.

Lemma length_py_range (n : Z) : length (py_range n) = Z.to_nat n.
Proof. unfold py_range. by rewrite length_fmap, length_seq. Qed.

(** *** The claims on [train] *)

(** C1.  In every run of [train_loop], the [s]-th training step ([s] from 1)
    is followed by [self.eval(epoch, s)] if and only if [eval_per_steps] is
    [-1], or is positive and divides [s]; with [eval_per_steps = 0] no call
    follows.  The trace is cut around the step: [pre] holds the [s - 1]
    earlier steps, [evs] is what the cadence chain emits, and [post] does not
    start with a call of [eval]. *)
Theorem eval_per_steps_cadence (epoch s : Z) :
  1 <= s <= Z.of_nat (length train_dataloader) ->
  exists (pre : trace) (batch : B) (evs post : trace),
    train_dataloader !! Z.to_nat (s - 1) = Some batch
    /\ train_loop epoch = pre ++ step_core epoch s batch ++ evs ++ post
    /\ engine_steps pre = Z.to_nat (s - 1)
    /\ no_eval_next post
    /\ (evs = [Eval epoch s] \/ evs = [])
    /\ (evs = [Eval epoch s] <-> due (eval_per_steps args) s)
    /\ (eval_per_steps args = 0 -> evs = []).
Proof.
  intros Hs.
  destruct (lookup_lt_is_Some_2 train_dataloader (Z.to_nat (s - 1)))
    as [batch Hb]; [lia|].
  exists ([BarOpen] ++ train_steps epoch 1 (take (Z.to_nat (s - 1)) train_dataloader)),
    batch, (step_cadence epoch s),
    (train_steps epoch (s + 1) (drop (S (Z.to_nat (s - 1))) train_dataloader)
     ++ [BarClose]).
  split; [done|]. split.
  { unfold train_loop. rewrite (train_steps_at epoch _ 1 _ _ Hb).
    replace (1 + Z.of_nat (Z.to_nat (s - 1))) with s by lia.
    by rewrite <- !app_assoc. }
  split.
  { rewrite engine_steps_app, engine_steps_train_steps, length_take.
    change (engine_steps [BarOpen]) with 0%nat. lia. }
  split; [by apply no_eval_next_train_steps|].
  destruct (step_cadence_cases epoch s) as [[-> Hd]|[-> Hd]].
  - split; [by left|]. split; [done|]. intros H0. destruct Hd as [?|[? _]]; lia.
  - split; [by right|]. split; [split; [done|by intros ?]|done].
Qed.

(** C2.  On both loops of [train], the [k]-th completed epoch ([k] from 1)
    is followed by a call [self.eval(_, 0)] if and only if
    [eval_per_epoches] is [-1], or is positive and divides [k]; with
    [eval_per_epoches = 0] no call follows.  Under [epochs = -1] the call
    passes [k], under [epochs > 0] it passes [k - 1]. *)
Theorem eval_per_epoches_cadence (fuel : nat) (k : Z) :
  1 <= k ->
  (epochs args = -1 /\ k <= Z.of_nat fuel) \/ (epochs args > 0 /\ k <= epochs args) ->
  exists pre evs post : trace,
    (train fuel).1 = pre ++ train_loop (k - 1) ++ evs ++ post
    /\ loops_entered pre = Z.to_nat (k - 1)
    /\ no_eval_next post
    /\ let e := if epochs args =? -1 then k else k - 1 in
       (evs = [Eval e 0] \/ evs = [])
       /\ (evs = [Eval e 0] <-> due (eval_per_epoches args) k)
       /\ (eval_per_epoches args = 0 -> evs = []).
Proof.
  intros Hk [[He Hf]|[He Hf]]; unfold train.
  - rewrite He. cbn [Z.eqb fst].
    replace fuel with (Z.to_nat (k - 1) + S (fuel - Z.to_nat k))%nat by lia.
    rewrite while_true_add. cbn [while_true].
    replace (0 + Z.of_nat (Z.to_nat (k - 1))) with (k - 1) by lia.
    replace (k - 1 + 1) with k by lia.
    exists (EngineTrain :: while_true (Z.to_nat (k - 1)) 0),
      (epoch_cadence k k), (while_true (fuel - Z.to_nat k) k).
    split; [done|]. split.
    { change (EngineTrain :: ?t) with ([@EngineTrain B] ++ t).
      rewrite loops_entered_app, loops_entered_while_true. done. }
    split; [apply no_eval_next_while_true|]. cbn zeta.
    destruct (epoch_cadence_cases k k) as [[-> Hd]|[-> Hd]].
    + split; [by left|]. split; [done|]. intros H0. destruct Hd as [?|[? _]]; lia.
    + split; [by right|]. split; [split; [done|by intros ?]|done].
  - destruct (Z.eqb_spec (epochs args) 0) as [?|_]; [lia|].
    destruct (Z.eqb_spec (epochs args) (-1)) as [?|_]; [lia|].
    destruct (Z.gtb_spec (epochs args) 0) as [_|?]; [|lia].
    cbn [fst]. rewrite (py_range_at (epochs args) k) by lia.
    rewrite for_epochs_app. cbn [for_epochs].
    replace (k - 1 + 1) with k by lia.
    exists (EngineTrain :: for_epochs (py_range (k - 1))),
      (epoch_cadence k (k - 1)),
      (for_epochs (Z.of_nat <$> seq (Z.to_nat k) (Z.to_nat (epochs args - k)))).
    split; [by rewrite <- ?app_assoc|]. split.
    { change (EngineTrain :: ?t) with ([@EngineTrain B] ++ t).
      rewrite loops_entered_app, loops_entered_for_epochs, length_py_range. done. }
    split; [apply no_eval_next_for_epochs|]. cbn zeta.
    destruct (epoch_cadence_cases k (k - 1)) as [[-> Hd]|[-> Hd]].
    + split; [by left|]. split; [done|]. intros H0. destruct Hd as [?|[? _]]; lia.
    + split; [by right|]. split; [split; [done|by intros ?]|done].
Qed.

(** C10.  With [epochs = 0], [train] returns at once: after
    [self.engine.train()] nothing is called, so no training step runs, the
    engine is never stepped and [eval] is never invoked. *)
Theorem train_zero_epochs (fuel : nat) :
  epochs args = 0 ->
  train fuel = ([EngineTrain], Returned)
  /\ engine_steps (train fuel).1 = 0%nat
  /\ evals (train fuel).1 = 0%nat.
Proof. intros He. unfold train. by rewrite He. Qed.

(** *** Counting the evaluations of a run *)

Lemma due_count_succ (n len : Z) :
  0 <= len ->
  (due n (len + 1) -> due_count n (len + 1) = due_count n len + 1)
  /\ (~ due n (len + 1) -> due_count n (len + 1) = due_count n len).
Proof.
  intros Hlen. unfold due, due_count.
  destruct (Z.eqb_spec n (-1)) as [->|Hn1]; [split; intros H; [lia|destruct H; by left]|].
  destruct (Z.gtb_spec n 0) as [Hn|Hn]; [|split; intros H; lia].
  pose proof (Z.div_mod (len + 1) n) as E1.
  pose proof (Z.div_mod len n) as E0.
  pose proof (Z.mod_pos_bound (len + 1) n) as B1.
  pose proof (Z.mod_pos_bound len n) as B0.
  split; intros H.
  - destruct H as [?|[_ Hm]]; [lia|]. nia.
  - assert ((len + 1) mod n <> 0) by (intros ?; apply H; right; lia). nia.
Qed.

Lemma evals_app (t u : trace) : evals (t ++ u) = (evals t + evals u)%nat.
Proof. unfold evals. by rewrite filter_app, length_app. Qed.

Lemma evals_one (e s : Z) : evals [Eval e s] = 1%nat.
Proof. reflexivity. Qed.

Lemma evals_nil : evals [] = 0%nat.
Proof. reflexivity. Qed.

Lemma evals_step_core (epoch step : Z) (batch : B) :
  evals (step_core epoch step batch) = 0%nat.
Proof. unfold step_core. by destruct is_pipeline_last_stage. Qed.

Lemma train_steps_app (epoch step : Z) (l1 l2 : list B) :
  train_steps epoch step (l1 ++ l2)
  = train_steps epoch step l1
    ++ train_steps epoch (step + Z.of_nat (length l1)) l2.
Proof.
  revert step. induction l1 as [|b l1 IH]; intros step.
  - cbn. by rewrite Z.add_0_r.
  - cbn [train_steps app length]. rewrite IH, <- !app_assoc.
    by replace (step + 1 + Z.of_nat (length l1))
      with (step + Z.of_nat (S (length l1))) by lia.
Qed.

Lemma evals_train_steps (epoch : Z) (batches : list B) :
  Z.of_nat (evals (train_steps epoch 1 batches))
  = due_count (eval_per_steps args) (Z.of_nat (length batches)).
Proof.
  induction batches as [|b l IH] using rev_ind.
  - cbn. unfold due_count. by repeat case_match.
  - rewrite train_steps_app, evals_app, length_app. cbn [train_steps length].
    rewrite app_nil_r, evals_app, evals_step_core.
    replace (Z.of_nat (length l + 1)) with (Z.of_nat (length l) + 1) by lia.
    destruct (due_count_succ (eval_per_steps args) (Z.of_nat (length l)))
      as [Hyes Hno]; [lia|].
    replace (1 + Z.of_nat (length l)) with (Z.of_nat (length l) + 1) by lia.
    destruct (step_cadence_cases epoch (Z.of_nat (length l) + 1))
      as [[-> Hd]|[-> Hd]].
    + rewrite (Hyes Hd), evals_one. lia.
    + rewrite (Hno Hd), evals_nil. lia.
Qed.

Lemma evals_train_loop (epoch : Z) :
  Z.of_nat (evals (train_loop epoch))
  = due_count (eval_per_steps args) (Z.of_nat (length train_dataloader)).
Proof.
  unfold train_loop. rewrite !evals_app, <- evals_train_steps with (epoch := epoch).
  change (evals [BarOpen]) with 0%nat. change (evals [BarClose]) with 0%nat. lia.
Qed.

Lemma py_range_succ (n : nat) :
  py_range (Z.of_nat (S n)) = py_range (Z.of_nat n) ++ [Z.of_nat n].
Proof.
  unfold py_range. rewrite !Nat2Z.id, seq_S, fmap_app. done.
Qed.

Lemma evals_for_epochs (n : nat) :
  Z.of_nat (evals (for_epochs (py_range (Z.of_nat n))))
  = Z.of_nat n
    * due_count (eval_per_steps args) (Z.of_nat (length train_dataloader))
    + due_count (eval_per_epoches args) (Z.of_nat n).
Proof.
  induction n as [|n IH].
  - cbn. unfold due_count. by repeat case_match.
  - rewrite py_range_succ, for_epochs_app, evals_app. cbn [for_epochs].
    rewrite app_nil_r, evals_app.
    pose proof (evals_train_loop (Z.of_nat n)) as Hloop.
    destruct (due_count_succ (eval_per_epoches args) (Z.of_nat n))
      as [Hyes Hno]; [lia|].
    replace (Z.of_nat (S n)) with (Z.of_nat n + 1) by lia.
    destruct (epoch_cadence_cases (Z.of_nat n + 1) (Z.of_nat n))
      as [[-> Hd]|[-> Hd]].
    + rewrite (Hyes Hd), evals_one. lia.
    + rewrite (Hno Hd), evals_nil. lia.
Qed.

Lemma engine_steps_train_loop (epoch : Z) :
  engine_steps (train_loop epoch) = length train_dataloader.
Proof.
  unfold train_loop. rewrite !engine_steps_app, engine_steps_train_steps.
  change (engine_steps [BarOpen]) with 0%nat.
  change (engine_steps [BarClose]) with 0%nat. lia.
Qed.

Lemma engine_steps_epoch_cadence (tested epoch : Z) :
  engine_steps (epoch_cadence tested epoch) = 0%nat.
Proof. by destruct (epoch_cadence_cases tested epoch) as [[-> _]|[-> _]]. Qed.

Lemma engine_steps_for_epochs (range : list Z) :
  engine_steps (for_epochs range)
  = (length range * length train_dataloader)%nat.
Proof.
  induction range as [|e rest IH]; [done|].
  cbn [for_epochs length].
  rewrite !engine_steps_app, engine_steps_train_loop,
    engine_steps_epoch_cadence, IH. lia.
Qed.

(** Which calls of [eval] the step loop makes, from step [step] on. *)
Lemma elem_of_train_steps (epoch step : Z) (batches : list B) (e s : Z) :
  Eval e s ∈ train_steps epoch step batches
  <-> e = epoch
      /\ step <= s < step + Z.of_nat (length batches)
      /\ due (eval_per_steps args) s.
Proof.
  revert step. induction batches as [|b rest IH]; intros step.
  - cbn. rewrite elem_of_nil. split; [done|]. lia.
  - cbn [train_steps length]. rewrite !elem_of_app, IH.
    assert (Hcore : ~ Eval e s ∈ step_core epoch step b).
    { unfold step_core. intros Hin.
      destruct is_pipeline_last_stage; cbn in Hin;
        repeat (apply elem_of_cons in Hin as [Heq|Hin]; [discriminate|]);
        by apply elem_of_nil in Hin. }
    destruct (step_cadence_cases epoch step) as [[-> Hd]|[-> Hd]].
    + rewrite list_elem_of_singleton. split.
      * intros [?|[Heq|(-> & ? & ?)]]; [done| |split; [done|split; [lia|done]]].
        injection Heq as -> ->. split; [done|]. split; [lia|done].
      * intros (-> & Hs & Hdue).
        destruct (decide (s = step)) as [->|Hne]; [by right; left|].
        right; right. split; [done|]. split; [lia|done].
    + rewrite elem_of_nil. split.
      * intros [?|[?|(-> & ? & ?)]]; [done|done|]. split; [done|split; [lia|done]].
      * intros (-> & Hs & Hdue).
        destruct (decide (s = step)) as [->|Hne]; [done|].
        right; right. split; [done|]. split; [lia|done].
Qed.

Lemma elem_of_train_loop (epoch e s : Z) :
  Eval e s ∈ train_loop epoch
  <-> e = epoch
      /\ 1 <= s <= Z.of_nat (length train_dataloader)
      /\ due (eval_per_steps args) s.
Proof.
  unfold train_loop. rewrite !elem_of_app, elem_of_train_steps,
    !list_elem_of_singleton.
  split.
  - intros [?|[(-> & ? & ?)|?]]; [done| |done]. split; [done|]. split; [lia|done].
  - intros (-> & ? & ?). right; left. split; [done|]. split; [lia|done].
Qed.

Lemma elem_of_epoch_cadence (tested epoch e s : Z) :
  Eval e s ∈ epoch_cadence tested epoch
  <-> e = epoch /\ s = 0 /\ due (eval_per_epoches args) tested.
Proof.
  destruct (epoch_cadence_cases tested epoch) as [[-> Hd]|[-> Hd]].
  - rewrite list_elem_of_singleton. split.
    + by intros [= -> ->].
    + by intros (-> & -> & _).
  - rewrite elem_of_nil. split; [done|]. by intros (_ & _ & ?).
Qed.

Lemma elem_of_for_epochs (range : list Z) (e s : Z) :
  Eval e s ∈ for_epochs range
  <-> e ∈ range
      /\ ((1 <= s <= Z.of_nat (length train_dataloader)
           /\ due (eval_per_steps args) s)
          \/ (s = 0 /\ due (eval_per_epoches args) (e + 1))).
Proof.
  induction range as [|epoch rest IH].
  - cbn. rewrite !elem_of_nil. tauto.
  - cbn [for_epochs].
    rewrite !elem_of_app, elem_of_train_loop, elem_of_epoch_cadence, IH,
      elem_of_cons.
    split.
    + intros [(-> & ? & ?)|[(-> & -> & ?)|(? & ?)]]; [| |tauto].
      * split; [by left|]. by left.
      * split; [by left|]. by right.
    + intros ([->|?] & [[? ?]|[-> ?]]); tauto.
Qed.

Lemma elem_of_while_true (fuel : nat) (epoch e s : Z) :
  Eval e s ∈ while_true fuel epoch
  <-> (epoch <= e < epoch + Z.of_nat fuel
       /\ 1 <= s <= Z.of_nat (length train_dataloader)
       /\ due (eval_per_steps args) s)
      \/ (epoch + 1 <= e <= epoch + Z.of_nat fuel
          /\ s = 0 /\ due (eval_per_epoches args) e).
Proof.
  revert epoch. induction fuel as [|fuel IH]; intros epoch.
  - cbn. rewrite elem_of_nil. split; [done|]. lia.
  - cbn [while_true].
    rewrite !elem_of_app, elem_of_train_loop, elem_of_epoch_cadence, IH.
    split.
    + intros [(-> & ? & ?)|[(-> & -> & ?)|[(? & ? & ?)|(? & -> & ?)]]].
      * left. split; [lia|done].
      * right. split; [lia|done].
      * left. split; [lia|done].
      * right. split; [lia|done].
    + intros [(? & ? & ?)|(? & -> & ?)].
      * destruct (decide (e = epoch)) as [->|?]; [by left|].
        right; right; left. split; [lia|done].
      * destruct (decide (e = epoch + 1)) as [->|?]; [by right; left|].
        right; right; right. split; [lia|done].
Qed.

(** *** Further properties of [train] *)

(** X1.  Unless [epochs] is [-1], [train] returns, after entering the step
    loop [max(0, epochs)] times and stepping the engine once per batch and
    epoch; in particular a value below [-1] trains nothing. *)
Theorem train_returns_after_all_epochs (fuel : nat) :
  epochs args <> -1 ->
  (train fuel).2 = Returned
  /\ loops_entered (train fuel).1 = Z.to_nat (epochs args)
  /\ engine_steps (train fuel).1
     = (Z.to_nat (epochs args) * length train_dataloader)%nat.
Proof.
  intros Hne. unfold train.
  destruct (Z.eqb_spec (epochs args) 0) as [->|H0]; [done|].
  destruct (Z.eqb_spec (epochs args) (-1)) as [?|_]; [done|].
  destruct (Z.gtb_spec (epochs args) 0) as [Hp|Hp]; cbn [fst snd].
  - split; [done|].
    change (EngineTrain :: ?t) with ([@EngineTrain B] ++ t).
    rewrite loops_entered_app, engine_steps_app, loops_entered_for_epochs,
      engine_steps_for_epochs, length_py_range.
    done.
  - replace (Z.to_nat (epochs args)) with 0%nat by lia. done.
Qed.

(** X2.  One pass over the dataloader calls [eval] once per step when
    [eval_per_steps] is [-1], once every [eval_per_steps] steps (rounded
    down) when it is positive, and never otherwise. *)
Theorem train_loop_eval_count (epoch : Z) :
  Z.of_nat (evals (train_loop epoch))
  = if eval_per_steps args =? -1 then Z.of_nat (length train_dataloader)
    else if eval_per_steps args >? 0
         then Z.of_nat (length train_dataloader) / eval_per_steps args
    else 0.
Proof. apply evals_train_loop. Qed.

(** X3.  A bounded run calls [eval], over all its epochs,
    [epochs * due_count eval_per_steps (number of batches)] times after
    steps and [due_count eval_per_epoches epochs] times after epochs. *)
Theorem train_eval_count (fuel : nat) :
  epochs args > 0 ->
  Z.of_nat (evals (train fuel).1)
  = epochs args
    * due_count (eval_per_steps args) (Z.of_nat (length train_dataloader))
    + due_count (eval_per_epoches args) (epochs args).
Proof.
  intros Hp. unfold train.
  destruct (Z.eqb_spec (epochs args) 0) as [?|_]; [lia|].
  destruct (Z.eqb_spec (epochs args) (-1)) as [?|_]; [lia|].
  destruct (Z.gtb_spec (epochs args) 0) as [_|?]; [|lia].
  cbn [fst]. change (EngineTrain :: ?t) with ([@EngineTrain B] ++ t).
  rewrite evals_app. change (evals [EngineTrain]) with 0%nat.
  rewrite Nat.add_0_l.
  rewrite <- (Z2Nat.id (epochs args)) by lia.
  apply evals_for_epochs.
Qed.

(** X4.  The calls of [eval] in a bounded run are exactly:
    [eval(e, s)] for every epoch [e] of [range(epochs)] and every due step
    [s], and [eval(e, 0)] for every epoch [e] whose count [e + 1] is due. *)
Theorem train_eval_calls (fuel : nat) (e s : Z) :
  epochs args > 0 ->
  Eval e s ∈ (train fuel).1
  <-> 0 <= e < epochs args
      /\ ((1 <= s <= Z.of_nat (length train_dataloader)
           /\ due (eval_per_steps args) s)
          \/ (s = 0 /\ due (eval_per_epoches args) (e + 1))).
Proof.
  intros Hp. unfold train.
  destruct (Z.eqb_spec (epochs args) 0) as [?|_]; [lia|].
  destruct (Z.eqb_spec (epochs args) (-1)) as [?|_]; [lia|].
  destruct (Z.gtb_spec (epochs args) 0) as [_|?]; [|lia].
  cbn [fst]. rewrite elem_of_cons, elem_of_for_epochs.
  unfold py_range. rewrite list_elem_of_fmap. setoid_rewrite elem_of_seq.
  split.
  - intros [?|((k & -> & ?) & ?)]; [done|]. split; [lia|done].
  - intros (? & ?). right. split; [|done]. exists (Z.to_nat e). lia.
Qed.

(** X5.  The endless loop labels its calls differently: after [fuel]
    rounds the step calls are [eval(e, s)] for [0 <= e < fuel], but the
    calls after an epoch are [eval(e, 0)] for [1 <= e <= fuel], the count of
    epochs done. *)
Theorem train_forever_eval_calls (fuel : nat) (e s : Z) :
  epochs args = -1 ->
  Eval e s ∈ (train fuel).1
  <-> (0 <= e < Z.of_nat fuel
       /\ 1 <= s <= Z.of_nat (length train_dataloader)
       /\ due (eval_per_steps args) s)
      \/ (1 <= e <= Z.of_nat fuel
          /\ s = 0 /\ due (eval_per_epoches args) e).
Proof.
  intros He. unfold train. rewrite He.
  change (-1 =? 0) with false. change (-1 =? -1) with true. cbn [fst].
  rewrite elem_of_cons, elem_of_while_true.
  split; [intros [?|H]; [done|]|intros H; right]; revert H;
    (intros [(? & ?)|(? & ?)]; [left|right]; (split; [lia|done])).
Qed.

End Trainer.


(** *** A small run *)

Example train_small :
  train small_dataloader false small_args 0
  = ([EngineTrain;
      BarOpen;
      ZeroGrad; ExecuteSchedule 100; EngineStep; EmptyCache;
      ZeroGrad; ExecuteSchedule 101; EngineStep; EmptyCache; Eval 0 2;
      ZeroGrad; ExecuteSchedule 102; EngineStep; EmptyCache;
      BarClose;
      BarOpen;
      ZeroGrad; ExecuteSchedule 100; EngineStep; EmptyCache;
      ZeroGrad; ExecuteSchedule 101; EngineStep; EmptyCache; Eval 1 2;
      ZeroGrad; ExecuteSchedule 102; EngineStep; EmptyCache;
      BarClose;
      Eval 1 0], Returned).
Proof. reflexivity. Qed.

(** The endless loop passes the incremented epoch to [eval]. *)
Example train_forever_small :
  train [100] false
    {| epochs := -1; eval_per_steps := 0; eval_per_epoches := -1;
       eval_max_length := 128; eval_stop_tokens := [2] |} 2
  = ([EngineTrain;
      BarOpen; ZeroGrad; ExecuteSchedule 100; EngineStep; EmptyCache; BarClose;
      Eval 1 0;
      BarOpen; ZeroGrad; ExecuteSchedule 100; EngineStep; EmptyCache; BarClose;
      Eval 2 0], Running).
Proof. reflexivity. Qed.

Lemma eval_per_steps_cadence_witness :
  1 <= 2 <= Z.of_nat (length small_dataloader)
  /\ exists (pre : list (event Z)) (batch : Z) (evs post : list (event Z)),
       small_dataloader !! Z.to_nat (2 - 1) = Some batch
       /\ train_loop small_dataloader true small_args 0
          = pre ++ step_core true 0 2 batch ++ evs ++ post
       /\ engine_steps pre = Z.to_nat (2 - 1)
       /\ no_eval_next post
       /\ (evs = [Eval 0 2] \/ evs = [])
       /\ (evs = [Eval 0 2] <-> due (eval_per_steps small_args) 2)
       /\ (eval_per_steps small_args = 0 -> evs = []).
Proof.
  split; [cbn; lia|].
  apply (eval_per_steps_cadence small_dataloader true small_args 0 2).
  cbn; lia.
Defined.

Lemma eval_per_epoches_cadence_witness :
  1 <= 2
  /\ ((epochs small_args = -1 /\ 2 <= Z.of_nat 0)
      \/ (epochs small_args > 0 /\ 2 <= epochs small_args))
  /\ exists pre evs post : list (event Z),
       (train small_dataloader true small_args 0).1
       = pre ++ train_loop small_dataloader true small_args (2 - 1) ++ evs ++ post
       /\ loops_entered pre = Z.to_nat (2 - 1)
       /\ no_eval_next post
       /\ (evs = [Eval (2 - 1) 0] \/ evs = [])
       /\ (evs = [Eval (2 - 1) 0] <-> due (eval_per_epoches small_args) 2)
       /\ (eval_per_epoches small_args = 0 -> evs = []).
Proof.
  assert (H : (epochs small_args = -1 /\ 2 <= Z.of_nat 0)
              \/ (epochs small_args > 0 /\ 2 <= epochs small_args))
    by (right; cbn; lia).
  split; [lia|]. split; [exact H|].
  apply (eval_per_epoches_cadence small_dataloader true small_args 0 2); [lia|exact H].
Defined.

Lemma train_zero_epochs_witness :
  epochs {| epochs := 0; eval_per_steps := -1; eval_per_epoches := -1;
            eval_max_length := 128; eval_stop_tokens := [2] |} = 0
  /\ train small_dataloader true
       {| epochs := 0; eval_per_steps := -1; eval_per_epoches := -1;
          eval_max_length := 128; eval_stop_tokens := [2] |} 5
     = ([EngineTrain], Returned).
Proof.
  split; [reflexivity|].
  apply (train_zero_epochs small_dataloader true _ 5). reflexivity.
Defined.


(** *** Small runs for the further properties *)

Lemma train_returns_after_all_epochs_witness :
  epochs small_args <> -1
  /\ (train small_dataloader true small_args 0).2 = Returned
  /\ loops_entered (train small_dataloader true small_args 0).1
     = Z.to_nat (epochs small_args)
  /\ engine_steps (train small_dataloader true small_args 0).1
     = (Z.to_nat (epochs small_args) * length small_dataloader)%nat.
Proof.
  assert (H : epochs small_args <> -1) by done.
  split; [exact H|].
  exact (train_returns_after_all_epochs small_dataloader true small_args 0 H).
Defined.

Lemma train_eval_count_witness :
  epochs small_args > 0
  /\ Z.of_nat (evals (train small_dataloader true small_args 0).1)
     = epochs small_args
       * due_count (eval_per_steps small_args)
           (Z.of_nat (length small_dataloader))
       + due_count (eval_per_epoches small_args) (epochs small_args).
Proof.
  assert (H : epochs small_args > 0) by (cbn; lia).
  split; [exact H|].
  exact (train_eval_count small_dataloader true small_args 0 H).
Defined.

Lemma train_eval_calls_witness :
  epochs small_args > 0
  /\ (Eval 1 0 ∈ (train small_dataloader true small_args 0).1
      <-> 0 <= 1 < epochs small_args
          /\ ((1 <= 0 <= Z.of_nat (length small_dataloader)
               /\ due (eval_per_steps small_args) 0)
              \/ (0 = 0 /\ due (eval_per_epoches small_args) (1 + 1)))).
Proof.
  assert (H : epochs small_args > 0) by (cbn; lia).
  split; [exact H|].
  exact (train_eval_calls small_dataloader true small_args 0 1 0 H).
Defined.

Lemma train_forever_eval_calls_witness :
  epochs forever_args = -1
  /\ (Eval 2 0 ∈ (train small_dataloader true forever_args 2).1
      <-> (0 <= 2 < Z.of_nat 2
           /\ 1 <= 0 <= Z.of_nat (length small_dataloader)
           /\ due (eval_per_steps forever_args) 0)
          \/ (1 <= 2 <= Z.of_nat 2
              /\ 0 = 0 /\ due (eval_per_epoches forever_args) 2)).
Proof.
  assert (H : epochs forever_args = -1) by reflexivity.
  split; [exact H|].
  exact (train_forever_eval_calls small_dataloader true forever_args 2 2 0 H).
Defined.

End Train.

(** ** [ColossalaiTrainer.generate] *)
Module Generate.

(** A 2-dimensional [torch.long] tensor of shape [(length rows, ncols)]. *)
Record Tensor := { ncols : nat; rows : list (list Z) }.

Definition nrows (t : Tensor) : nat := length (rows t).

(** Every row has [ncols] entries. *)
Definition wf (t : Tensor) : Prop := Forall (fun row => length row = ncols t) (rows t).

(** The pair a dataloader yields: [({"input_ids": ...}, labels)].
    [labels_shared] tells whether the labels are the very tensor object
    bound to ["input_ids"] (as when [.long()] returns its argument): an
    assignment into that tensor then shows in the labels too. *)
Record Batch := { input_ids : Tensor; labels : Tensor; labels_shared : bool }.

(** The calls one round of the loop makes, in program order.  [Broadcast]
    carries [next_tokens] as it is after the collective. *)
Inductive event :=
| EngineEval
| ExecuteSchedule (ids : Tensor)
| Broadcast (src : Z) (next_tokens : list Z)
| SetPostfix (current_pos : nat) (max_length : Z)
| EmptyCache.

(** Line 149: [torch.cat([ids, torch.zeros_like(next_tokens)], dim=1)], with
    [next_tokens] of shape [(nrows, 1)]. *)
Definition cat_zeros (t : Tensor) : Tensor :=
  {| ncols := S (ncols t); rows := (fun row => row ++ [0]) <$> rows t |}.

(** Line 148: [while current_pos >= ids.shape[1]: ids = cat(...)]. *)
Equations? pad_columns (current_pos : nat) (t : Tensor) : Tensor
  by wf (S current_pos - ncols t)%nat lt :=
  pad_columns current_pos t with decide (ncols t <= current_pos)%nat => {
    | left _ => pad_columns current_pos (cat_zeros t);
    | right _ => t }.
Proof. cbn. lia. Qed.

(** [torch.where(old == 0, tok, old)] on one entry. *)
Definition where_zero (old tok : Z) : Z := if old =? 0 then tok else old.

(** Line 150: the assignment to column [current_pos], row by row. *)
Definition store_row (current_pos : nat) (row : list Z) (tok : Z) : list Z :=
  match row !! current_pos with
  | Some old => <[current_pos := where_zero old tok]> row
  | None => row
  end.

Definition store_column (current_pos : nat) (next_tokens : list Z) (t : Tensor)
  : Tensor :=
  {| ncols := ncols t;
     rows := zip_with (store_row current_pos) (rows t) next_tokens |}.

(** Lines 152-154: does [flatten(next_tokens)] hold a stop token? *)
Definition has_stop (stop_tokens next_tokens : list Z) : bool :=
  existsb (fun i => bool_decide (i ∈ stop_tokens)) next_tokens.

(** *** A small input

    Two prompts padded to three columns, on the last of eight pipeline
    stages; the engine predicts [40 + 10 * i + r] for row [r] in round [i],
    and the collective leaves the local tensor as it is, as on the source
    rank. *)
Definition sample_ids : Tensor := {| ncols := 3; rows := [[5; 6; 0]; [7; 0; 0]] |}.
Definition sample_batch : Batch :=
  {| input_ids := sample_ids; labels := sample_ids; labels_shared := false |}.
(** The same prompts, with the labels being the [input_ids] tensor itself. *)
Definition shared_batch : Batch :=
  {| input_ids := sample_ids; labels := sample_ids; labels_shared := true |}.
Definition sample_argmax (i : nat) (ids : Tensor) (r : nat) : Z :=
  40 + 10 * Z.of_nat i + Z.of_nat r.
Definition sample_broadcast (i : nat) (src : Z) (local : nat -> Z) : nat -> Z := local.

Section Generator.
(** What the process sees of the outside: its pipeline stage, the size of
    the pipeline group, the engine's prediction in loop round [i] on input
    [ids] (row [r] of [argmax(hidden_states[:, -1, :])], read on the last
    stage only), and what the collective leaves in row [r] of the local
    tensor. *)
Variable is_pipeline_last_stage : bool.
Variable pipeline_world_size : Z.
Variable argmax_last : nat -> Tensor -> nat -> Z.
Variable broadcast : nat -> Z -> (nat -> Z) -> nat -> Z.

(** Line 146: the source rank passed to [torch.distributed.broadcast]. *)
Definition broadcast_src : Z := pipeline_world_size - 1.

(** Lines 142-147: [next_tokens], of shape [(nrows, 1)], after the
    broadcast. *)
Definition next_tokens (i : nat) (ids : Tensor) : list Z :=
  let local := if is_pipeline_last_stage then argmax_last i ids else fun _ => 0 in
  broadcast i broadcast_src local <$> seq 0 (nrows ids).

(** Lines 129-157: one round of the loop, for the value [i] drawn from
    [range(max_length)].  The third component tells whether
    [StopIteration] was raised. *)
Definition generate_round (max_length : Z) (stop_tokens : list Z)
    (i : nat) (ids : Tensor) : Tensor * list event * bool :=
  let current_pos := S i in
  let toks := next_tokens i ids in
  let ids' := store_column current_pos toks (pad_columns current_pos ids) in
  let stop := has_stop stop_tokens toks in
  (ids',
   [EngineEval; ExecuteSchedule ids; Broadcast broadcast_src toks;
    SetPostfix current_pos max_length]
   ++ (if stop then [] else [EmptyCache]),
   stop).

(** Lines 128-157: the loop over [tqb], left by [break] on [StopIteration],
    as it acts on the tensor bound to ["input_ids"]. *)
Fixpoint generate_loop (max_length : Z) (stop_tokens : list Z)
    (tqb : list nat) (ids : Tensor) : Tensor * list event :=
  match tqb with
  | [] => (ids, [])
  | i :: rest =>
      let '(ids', evs, stop) := generate_round max_length stop_tokens i ids in
      if stop then (ids', evs)
      else
        let '(ids'', evs') := generate_loop max_length stop_tokens rest ids' in
        (ids'', evs ++ evs')
  end.

(** Lines 129-157 on the batch.  [torch.cat] (line 149) binds a new tensor
    to ["input_ids"], which happens exactly when the column is missing;
    the labels, if they were the old tensor, stay that tensor as it was.
    The assignment of line 150 writes the tensor bound to ["input_ids"] in
    place, and so the labels as long as they are that tensor. *)
Definition generate_round_batch (max_length : Z) (stop_tokens : list Z)
    (i : nat) (batch : Batch) : Batch * list event * bool :=
  let '(ids', evs, stop) :=
    generate_round max_length stop_tokens i (input_ids batch) in
  let shared :=
    labels_shared batch && bool_decide (S i < ncols (input_ids batch))%nat in
  ({| input_ids := ids';
      labels := if shared then ids'
                else if labels_shared batch then input_ids batch
                else labels batch;
      labels_shared := shared |},
   evs, stop).

(** Lines 128-157: the loop over [tqb] on the batch. *)
Fixpoint generate_batch_loop (max_length : Z) (stop_tokens : list Z)
    (tqb : list nat) (batch : Batch) : Batch * list event :=
  match tqb with
  | [] => (batch, [])
  | i :: rest =>
      let '(batch', evs, stop) :=
        generate_round_batch max_length stop_tokens i batch in
      if stop then (batch', evs)
      else
        let '(batch'', evs') :=
          generate_batch_loop max_length stop_tokens rest batch' in
        (batch'', evs ++ evs')
  end.

(** Lines 122-158.  The progress bar and the unused [past_key_value]
    allocation are outside the loop and are not recorded. *)
Definition generate (batch : Batch) (max_length : Z) (stop_tokens : list Z)
  : Batch * list event :=
  generate_batch_loop max_length stop_tokens (seq 0 (Z.to_nat max_length)) batch.

(** *** Observations on a trace *)

Definition is_forward (e : event) : bool :=
  match e with ExecuteSchedule _ => true | _ => false end.
Definition is_empty_cache (e : event) : bool :=
  match e with EmptyCache => true | _ => false end.

(** Rounds started: one forward pass each. *)
Definition rounds (t : list event) : nat := length (List.filter is_forward t).
(** Rounds run to their last statement, [torch.cuda.empty_cache()]. *)
Definition completed (t : list event) : nat :=
  length (List.filter is_empty_cache t).

(** The values of [current_pos] the rounds report, in order. *)
Fixpoint positions (t : list event) : list nat :=
  match t with
  | [] => []
  | SetPostfix current_pos _ :: t' => current_pos :: positions t'
  | _ :: t' => positions t'
  end.

(** The tensors the rounds pass to the engine, and the tensors they are
    left with by the collective, in order. *)
Fixpoint forwarded (t : list event) : list Tensor :=
  match t with
  | [] => []
  | ExecuteSchedule ids :: t' => ids :: forwarded t'
  | _ :: t' => forwarded t'
  end.

Fixpoint received (t : list event) : list (list Z) :=
  match t with
  | [] => []
  | Broadcast _ toks :: t' => toks :: received t'
  | _ :: t' => received t'
  end.

(** What lines 148-150 do to a tensor [t] at column [pos], given the
    tokens [toks], spelled out entry by entry: [t'] has the rows of [t],
    widened with zeros up to column [pos] if need be; in every row the
    entry at [pos] is the row's token if it was 0 and is kept otherwise;
    every other entry is kept. *)
Definition writes_column (pos : nat) (t : Tensor) (toks : list Z) (t' : Tensor)
  : Prop :=
  length toks = nrows t
  /\ nrows t' = nrows t
  /\ ncols t' = (ncols t `max` S pos)%nat
  /\ forall r row, rows t !! r = Some row ->
       exists row' tok old,
         rows t' !! r = Some row'
         /\ toks !! r = Some tok
         /\ (row ++ replicate (ncols t' - ncols t) 0) !! pos = Some old
         /\ (old = 0 -> row' !! pos = Some tok)
         /\ (old <> 0 -> row' !! pos = Some old)
         /\ forall c, c <> pos ->
              row' !! c = (row ++ replicate (ncols t' - ncols t) 0) !! c.

(** The positions the loop reports stay within the bound. *)
Definition within (max_length : Z) (e : event) : Prop :=
  match e with
  | SetPostfix current_pos _ => Z.of_nat current_pos <= max_length
  | _ => True
  end.


(** *** The tensor operations *)

(** The loop of line 148 appends exactly the columns that are missing. *)
Lemma pad_columns_spec (current_pos : nat) (t : Tensor) :
  pad_columns current_pos t
  = {| ncols := ncols t `max` S current_pos;
       rows := (fun row => row ++ replicate (S current_pos - ncols t) 0)
               <$> rows t |}.
Proof.
  funelim (pad_columns current_pos t).
  - match goal with IH : pad_columns _ _ = {| ncols := _; rows := _ |} |- _ =>
      rewrite IH end.
    cbn [cat_zeros ncols rows]. f_equal; [lia|].
    rewrite <- list_fmap_compose. apply list_fmap_ext. intros _ row _. cbn.
    rewrite <- app_assoc. f_equal.
    by replace (S current_pos - ncols t)%nat
      with (S (current_pos - ncols t)) by lia.
  - destruct t as [width rs]. cbn [ncols rows] in *. f_equal; [lia|].
    replace (S current_pos - width)%nat with 0%nat by lia. cbn.
    rewrite <- (list_fmap_id rs) at 1. apply list_fmap_ext.
    intros _ row _. by rewrite app_nil_r.
Qed.

Lemma pad_columns_wf (current_pos : nat) (t : Tensor) :
  wf t -> wf (pad_columns current_pos t).
Proof.
  rewrite pad_columns_spec. unfold wf. cbn [ncols rows]. intros Ht.
  apply Forall_fmap. eapply Forall_impl; [exact Ht|].
  intros row Hrow. cbn in *. rewrite length_app, length_replicate. lia.
Qed.

Lemma pad_columns_nrows (current_pos : nat) (t : Tensor) :
  nrows (pad_columns current_pos t) = nrows t.
Proof. rewrite pad_columns_spec. unfold nrows. cbn. by rewrite length_fmap. Qed.

Lemma length_store_row (current_pos : nat) (row : list Z) (tok : Z) :
  length (store_row current_pos row tok) = length row.
Proof. unfold store_row. destruct (row !! current_pos); [apply length_insert|done]. Qed.

Lemma store_row_other (current_pos c : nat) (row : list Z) (tok : Z) :
  c <> current_pos -> store_row current_pos row tok !! c = row !! c.
Proof.
  intros Hc. unfold store_row.
  destruct (row !! current_pos); [by apply list_lookup_insert_ne|done].
Qed.

Lemma store_row_at (current_pos : nat) (row : list Z) (old tok : Z) :
  row !! current_pos = Some old ->
  store_row current_pos row tok !! current_pos = Some (where_zero old tok).
Proof.
  intros Hold. unfold store_row. rewrite Hold.
  apply list_lookup_insert_eq. by eapply lookup_lt_Some.
Qed.

Lemma store_column_wf (current_pos : nat) (toks : list Z) (t : Tensor) :
  wf t -> wf (store_column current_pos toks t).
Proof.
  unfold wf, store_column. cbn [ncols rows]. intros Ht.
  apply Forall_lookup. intros r row' Hr.
  rewrite lookup_zip_with in Hr.
  destruct (rows t !! r) as [row|] eqn:Hrow; [|done].
  destruct (toks !! r) as [tok|]; simplify_eq/=.
  rewrite length_store_row. by eapply (Forall_lookup_1 _ _ _ _ Ht).
Qed.

Lemma has_stop_true (stop_tokens toks : list Z) :
  has_stop stop_tokens toks = true
  <-> exists tok, tok ∈ toks /\ tok ∈ stop_tokens.
Proof.
  unfold has_stop. rewrite existsb_exists. split.
  - intros (tok & Htok & Hstop). exists tok.
    by rewrite list_elem_of_In, <- (bool_decide_eq_true (tok ∈ stop_tokens)).
  - intros (tok & Htok & Hstop). exists tok.
    by rewrite <- list_elem_of_In, bool_decide_eq_true.
Qed.

(** *** One round *)

Lemma length_next_tokens (i : nat) (ids : Tensor) :
  length (next_tokens i ids) = nrows ids.
Proof. unfold next_tokens. by rewrite length_fmap, length_seq. Qed.

Lemma store_column_nrows (current_pos i : nat) (ids t : Tensor) :
  nrows t = nrows ids ->
  nrows (store_column current_pos (next_tokens i ids) t) = nrows ids.
Proof.
  intros Ht. unfold nrows, store_column in *. cbn [rows].
  rewrite length_zip_with, length_next_tokens. unfold nrows. lia.
Qed.

Lemma generate_round_nrows (max_length : Z) (stop_tokens : list Z)
    (i : nat) (ids : Tensor) :
  nrows (generate_round max_length stop_tokens i ids).1.1 = nrows ids.
Proof. cbn. apply store_column_nrows, pad_columns_nrows. Qed.

Lemma generate_round_wf (max_length : Z) (stop_tokens : list Z)
    (i : nat) (ids : Tensor) :
  wf ids -> wf (generate_round max_length stop_tokens i ids).1.1.
Proof. intros Hids. cbn. by apply store_column_wf, pad_columns_wf. Qed.

(** *** The loop *)

Lemma generate_loop_cons (max_length : Z) (stop_tokens : list Z)
    (i : nat) (rest : list nat) (ids : Tensor) :
  generate_loop max_length stop_tokens (i :: rest) ids
  = let toks := next_tokens i ids in
    let ids' := store_column (S i) toks (pad_columns (S i) ids) in
    let called := [EngineEval; ExecuteSchedule ids;
                   Broadcast broadcast_src toks; SetPostfix (S i) max_length] in
    if has_stop stop_tokens toks then (ids', called)
    else ((generate_loop max_length stop_tokens rest ids').1,
          called ++ EmptyCache
            :: (generate_loop max_length stop_tokens rest ids').2).
Proof.
  cbn. destruct (has_stop stop_tokens (next_tokens i ids)); [done|].
  by destruct (generate_loop max_length stop_tokens rest _).
Qed.

Lemma generate_loop_rounds (max_length : Z) (stop_tokens : list Z)
    (tqb : list nat) (ids : Tensor) :
  (rounds (generate_loop max_length stop_tokens tqb ids).2 <= length tqb)%nat.
Proof.
  revert ids. induction tqb as [|i rest IH]; intros ids; [done|].
  rewrite generate_loop_cons. cbn zeta.
  destruct (has_stop stop_tokens (next_tokens i ids)); cbn; [lia|].
  specialize (IH (store_column (S i) (next_tokens i ids) (pad_columns (S i) ids))).
  unfold rounds in IH. lia.
Qed.

Lemma generate_loop_completed (max_length : Z) (stop_tokens : list Z)
    (tqb : list nat) (ids : Tensor) :
  (completed (generate_loop max_length stop_tokens tqb ids).2 <= length tqb)%nat.
Proof.
  revert ids. induction tqb as [|i rest IH]; intros ids; [done|].
  rewrite generate_loop_cons. cbn zeta.
  destruct (has_stop stop_tokens (next_tokens i ids)); cbn; [lia|].
  specialize (IH (store_column (S i) (next_tokens i ids) (pad_columns (S i) ids))).
  unfold completed in IH. lia.
Qed.

Lemma generate_loop_within (max_length : Z) (stop_tokens : list Z)
    (tqb : list nat) (ids : Tensor) :
  Forall (fun i => Z.of_nat (S i) <= max_length) tqb ->
  Forall (within max_length) (generate_loop max_length stop_tokens tqb ids).2.
Proof.
  revert ids. induction tqb as [|i rest IH]; intros ids Htqb; [by constructor|].
  apply Forall_cons in Htqb as [Hi Hrest].
  rewrite generate_loop_cons. cbn zeta.
  destruct (has_stop stop_tokens (next_tokens i ids)); cbn [snd app].
  - by repeat constructor.
  - repeat (constructor; [done|]). by apply IH.
Qed.

Lemma generate_loop_nrows (max_length : Z) (stop_tokens : list Z)
    (tqb : list nat) (ids : Tensor) :
  nrows (generate_loop max_length stop_tokens tqb ids).1 = nrows ids.
Proof.
  revert ids. induction tqb as [|i rest IH]; intros ids; [done|].
  rewrite generate_loop_cons. cbn zeta.
  destruct (has_stop stop_tokens (next_tokens i ids)); cbn [fst].
  - apply store_column_nrows, pad_columns_nrows.
  - rewrite IH. apply store_column_nrows, pad_columns_nrows.
Qed.

Lemma generate_loop_wf (max_length : Z) (stop_tokens : list Z)
    (tqb : list nat) (ids : Tensor) :
  wf ids -> wf (generate_loop max_length stop_tokens tqb ids).1.
Proof.
  revert ids. induction tqb as [|i rest IH]; intros ids Hids; [done|].
  rewrite generate_loop_cons. cbn zeta.
  destruct (has_stop stop_tokens (next_tokens i ids)); cbn [fst].
  - by apply store_column_wf, pad_columns_wf.
  - by apply IH, store_column_wf, pad_columns_wf.
Qed.

(** The loop is cut short exactly when a round received a stop token. *)
Lemma generate_loop_stop_iff (max_length : Z) (stop_tokens : list Z)
    (tqb : list nat) (ids : Tensor) :
  (completed (generate_loop max_length stop_tokens tqb ids).2 < length tqb)%nat
  <-> exists src toks,
        Broadcast src toks ∈ (generate_loop max_length stop_tokens tqb ids).2
        /\ has_stop stop_tokens toks = true.
Proof.
  revert ids. induction tqb as [|i rest IH]; intros ids.
  - cbn. split; [lia|]. intros (src & toks & Hin & _). by apply elem_of_nil in Hin.
  - rewrite generate_loop_cons. cbn zeta.
    destruct (has_stop stop_tokens (next_tokens i ids)) eqn:Hstop; cbn [snd].
    + split; [|cbn; lia]. intros _.
      exists broadcast_src, (next_tokens i ids). split; [|done].
      do 2 apply list_elem_of_further. apply list_elem_of_here.
    + specialize (IH (store_column (S i) (next_tokens i ids)
                        (pad_columns (S i) ids))).
      change (completed (?called ++ EmptyCache :: ?t))
        with (S (completed t)).
      cbn [length]. rewrite <- Nat.succ_lt_mono, IH.
      split; intros (src & toks & Hin & Hs); exists src, toks; (split; [|done]).
      * cbn. by do 5 apply list_elem_of_further.
      * cbn in Hin. repeat (apply elem_of_cons in Hin as [Heq|Hin]; [|]);
          try discriminate; [|done].
        injection Heq as -> ->. congruence.
Qed.

(** A round that received a stop token is the last one, and its write is in
    the tensor the loop returns. *)
Lemma generate_loop_stop_last (max_length : Z) (stop_tokens : list Z)
    (tqb : list nat) (ids : Tensor) (src : Z) (toks : list Z) :
  Broadcast src toks ∈ (generate_loop max_length stop_tokens tqb ids).2 ->
  has_stop stop_tokens toks = true ->
  exists (before : list event) (ids0 : Tensor) (i : nat),
    (generate_loop max_length stop_tokens tqb ids).2
    = before ++ [EngineEval; ExecuteSchedule ids0; Broadcast src toks;
                 SetPostfix (S i) max_length]
    /\ toks = next_tokens i ids0
    /\ (generate_loop max_length stop_tokens tqb ids).1
       = store_column (S i) toks (pad_columns (S i) ids0).
Proof.
  revert ids. induction tqb as [|i rest IH]; intros ids Hin Hs.
  - by apply elem_of_nil in Hin.
  - rewrite generate_loop_cons in Hin |- *. cbn zeta in Hin |- *.
    destruct (has_stop stop_tokens (next_tokens i ids)) eqn:Hstop;
      cbn [fst snd] in Hin |- *.
    + repeat (apply elem_of_cons in Hin as [Heq|Hin]; [|]);
        try discriminate; [|by apply elem_of_nil in Hin].
      injection Heq as -> ->. by exists [], ids, i.
    + cbn in Hin. repeat (apply elem_of_cons in Hin as [Heq|Hin]; [|]);
        try discriminate.
      { injection Heq as -> ->. congruence. }
      destruct (IH _ Hin Hs) as (before & ids0 & j & Htr & Htoks & Hids).
      exists ([EngineEval; ExecuteSchedule ids;
               Broadcast broadcast_src (next_tokens i ids);
               SetPostfix (S i) max_length; EmptyCache] ++ before), ids0, j.
      rewrite Htr. by rewrite <- app_assoc.
Qed.

(** The loop on the batch does to ["input_ids"] what [generate_loop] does,
    and makes the same calls. *)
Lemma generate_batch_loop_input_ids (max_length : Z) (stop_tokens : list Z)
    (tqb : list nat) (batch : Batch) :
  input_ids (generate_batch_loop max_length stop_tokens tqb batch).1
  = (generate_loop max_length stop_tokens tqb (input_ids batch)).1
  /\ (generate_batch_loop max_length stop_tokens tqb batch).2
     = (generate_loop max_length stop_tokens tqb (input_ids batch)).2.
Proof.
  revert batch. induction tqb as [|i rest IH]; intros batch; [done|].
  rewrite generate_loop_cons. cbn zeta.
  cbn [generate_batch_loop generate_round_batch generate_round].
  destruct (has_stop stop_tokens (next_tokens i (input_ids batch))); [done|].
  match goal with
  | |- context [generate_batch_loop max_length stop_tokens rest ?b] =>
      specialize (IH b); destruct (generate_batch_loop max_length stop_tokens rest b)
  end.
  cbn [fst snd input_ids] in *. destruct IH as [-> ->]. done.
Qed.

Lemma generate_unfold (batch : Batch) (max_length : Z) (stop_tokens : list Z) :
  generate batch max_length stop_tokens
  = ({| input_ids :=
          (generate_loop max_length stop_tokens (seq 0 (Z.to_nat max_length))
             (input_ids batch)).1;
        labels :=
          labels (generate_batch_loop max_length stop_tokens
                    (seq 0 (Z.to_nat max_length)) batch).1;
        labels_shared :=
          labels_shared (generate_batch_loop max_length stop_tokens
                           (seq 0 (Z.to_nat max_length)) batch).1 |},
     (generate_loop max_length stop_tokens (seq 0 (Z.to_nat max_length))
        (input_ids batch)).2).
Proof.
  unfold generate.
  destruct (generate_batch_loop_input_ids max_length stop_tokens
              (seq 0 (Z.to_nat max_length)) batch) as [<- <-].
  by destruct (generate_batch_loop _ _ _ _) as [[? ? ?] ?].
Qed.

(** With an empty range nothing is called and the batch is returned. *)
Lemma generate_no_round (batch : Batch) (max_length : Z) (stop_tokens : list Z) :
  max_length <= 0 -> generate batch max_length stop_tokens = (batch, []).
Proof.
  intros Hml. unfold generate.
  by replace (Z.to_nat max_length) with 0%nat by lia.
Qed.

Lemma generate_loop_positions (max_length : Z) (stop_tokens : list Z)
    (j n : nat) (ids : Tensor) :
  positions (generate_loop max_length stop_tokens (seq j n) ids).2
  = seq (S j) (rounds (generate_loop max_length stop_tokens (seq j n) ids).2).
Proof.
  revert j ids. induction n as [|n IH]; intros j ids; [done|].
  cbn [seq]. rewrite generate_loop_cons. cbn zeta.
  destruct (has_stop stop_tokens (next_tokens j ids)); [done|].
  cbn [snd]. cbn. f_equal. apply IH.
Qed.

(** The row [r] of the tensor after a round: the old row, padded with zeros
    up to the column written, with that one entry passed through
    [torch.where]. *)
Lemma generate_round_row (max_length : Z) (stop_tokens : list Z)
    (i : nat) (ids : Tensor) (r : nat) (row : list Z) :
  wf ids ->
  rows ids !! r = Some row ->
  exists old tok,
    next_tokens i ids !! r = Some tok
    /\ (row ++ replicate (S (S i) - ncols ids) 0) !! S i = Some old
    /\ rows (generate_round max_length stop_tokens i ids).1.1 !! r
       = Some (<[S i := where_zero old tok]>
                 (row ++ replicate (S (S i) - ncols ids) 0)).
Proof.
  intros Hids Hrow.
  assert (Hlen : length row = ncols ids) by (by eapply (Forall_lookup_1 _ _ _ _ Hids)).
  destruct (lookup_lt_is_Some_2 (next_tokens i ids) r) as [tok Htok].
  { rewrite length_next_tokens. by eapply lookup_lt_Some. }
  destruct (lookup_lt_is_Some_2 (row ++ replicate (S (S i) - ncols ids) 0) (S i))
    as [old Hold].
  { rewrite length_app, length_replicate. lia. }
  exists old, tok. split; [done|]. split; [done|].
  cbn [generate_round fst store_column rows].
  rewrite lookup_zip_with, pad_columns_spec. cbn [rows].
  rewrite list_lookup_fmap, Hrow, Htok. cbn.
  unfold store_row. by rewrite Hold.
Qed.

(** Every round passes [pipeline_world_size - 1] as the source rank of the
    collective (what the other processes then hold is theirs to say). *)
Lemma generate_round_broadcast_src (max_length : Z) (stop_tokens : list Z)
    (i : nat) (ids : Tensor) (src : Z) (toks : list Z) :
  Broadcast src toks ∈ (generate_round max_length stop_tokens i ids).1.2 ->
  src = pipeline_world_size - 1 /\ toks = next_tokens i ids.
Proof.
  cbn. intros Hin.
  repeat (apply elem_of_cons in Hin as [Heq|Hin]; [|]); try discriminate.
  - by injection Heq as -> ->.
  - destruct (has_stop stop_tokens (next_tokens i ids)).
    + by apply elem_of_nil in Hin.
    + apply elem_of_cons in Hin as [Heq|Hin]; [discriminate|].
      by apply elem_of_nil in Hin.
Qed.

(** *** The rounds, one after the other *)

Lemma rounds_round (t : list event) (ids : Tensor) (src : Z)
    (toks : list Z) (pos : nat) (max_length : Z) :
  rounds ([EngineEval; ExecuteSchedule ids; Broadcast src toks;
           SetPostfix pos max_length] ++ EmptyCache :: t)
  = S (rounds t).
Proof. reflexivity. Qed.

Lemma completed_round (t : list event) (ids : Tensor) (src : Z)
    (toks : list Z) (pos : nat) (max_length : Z) :
  completed ([EngineEval; ExecuteSchedule ids; Broadcast src toks;
              SetPostfix pos max_length] ++ EmptyCache :: t)
  = S (completed t).
Proof. reflexivity. Qed.

Lemma generate_round_writes_column (max_length : Z) (stop_tokens : list Z)
    (i : nat) (ids : Tensor) :
  wf ids ->
  writes_column (S i) ids (next_tokens i ids)
    (generate_round max_length stop_tokens i ids).1.1.
Proof.
  intros Hids.
  assert (Hcols : ncols (generate_round max_length stop_tokens i ids).1.1
                  = (ncols ids `max` S (S i))%nat)
    by (cbn; by rewrite pad_columns_spec).
  split; [apply length_next_tokens|].
  split; [apply generate_round_nrows|]. split; [done|].
  intros r row Hrow.
  destruct (generate_round_row max_length stop_tokens i ids r row Hids Hrow)
    as (old & tok & Htok & Hold & Hrow').
  rewrite Hcols.
  replace (ncols ids `max` S (S i) - ncols ids)%nat
    with (S (S i) - ncols ids)%nat by lia.
  assert (Hlt : (S i < length (row ++ replicate (S (S i) - ncols ids) 0%Z))%nat)
    by (by eapply lookup_lt_Some).
  eexists _, tok, old. split; [exact Hrow'|]. split; [done|]. split; [done|].
  split; [|split].
  - intros ->. by rewrite list_lookup_insert_eq.
  - intros Hnz. rewrite list_lookup_insert_eq by exact Hlt. unfold where_zero.
    destruct (Z.eqb_spec old 0) as [Hz|_]; [contradiction|reflexivity].
  - intros c Hc. rewrite list_lookup_insert_ne by congruence. reflexivity.
Qed.

(** The tensors passed to the engine, followed by the tensor returned, form
    a chain: each is made from the one before by the write of its round. *)
Lemma generate_loop_chain (max_length : Z) (stop_tokens : list Z)
    (j n : nat) (ids : Tensor) :
  wf ids ->
  let t := (generate_loop max_length stop_tokens (seq j n) ids).2 in
  let ts := forwarded t
            ++ [(generate_loop max_length stop_tokens (seq j n) ids).1] in
  ts !! 0%nat = Some ids
  /\ length (forwarded t) = rounds t
  /\ length (received t) = rounds t
  /\ forall k a b toks,
       ts !! k = Some a -> ts !! S k = Some b -> received t !! k = Some toks ->
       writes_column (S (j + k)) a toks b.
Proof.
  revert j ids. induction n as [|n IH]; intros j ids Hids.
  - cbn. split; [done|]. split; [done|]. split; [done|].
    by intros [|k] a b toks.
  - cbn [seq]. cbn zeta. rewrite generate_loop_cons. cbn zeta.
    pose proof (generate_round_writes_column max_length stop_tokens j ids Hids)
      as Hw. cbn [generate_round fst] in Hw.
    destruct (has_stop stop_tokens (next_tokens j ids)); cbn [fst snd].
    + cbn. split; [done|]. split; [done|]. split; [done|].
      intros [|[|k]] a b toks; cbn; intros [= <-] [= <-] [= <-].
      by rewrite Nat.add_0_r.
    + assert (Hwf1 : wf (store_column (S j) (next_tokens j ids)
                           (pad_columns (S j) ids)))
        by (by apply store_column_wf, pad_columns_wf).
      destruct (IH (S j) _ Hwf1) as (H0 & Hf & Hr & Hstep).
      cbn zeta in *. rewrite rounds_round. cbn [app forwarded received length].
      split; [done|]. split; [by rewrite Hf|]. split; [by rewrite Hr|].
      intros [|k] a b toks; cbn [lookup list_lookup app].
      * intros [= <-] Hb [= <-].
        pose proof (eq_trans (eq_sym Hb) H0) as Heq. injection Heq as ->.
        by rewrite Nat.add_0_r.
      * intros Ha Hb Htoks.
        replace (j + S k)%nat with (S j + k)%nat by lia.
        by eapply Hstep.
Qed.

(** A round that received a stop token is the last one of the trace, and
    the tensor returned is the tensor it was given, with its write. *)
Lemma generate_loop_stop_write (max_length : Z) (stop_tokens : list Z)
    (tqb : list nat) (ids : Tensor) (src : Z) (toks : list Z) :
  wf ids ->
  Broadcast src toks ∈ (generate_loop max_length stop_tokens tqb ids).2 ->
  has_stop stop_tokens toks = true ->
  exists (before : list event) (ids0 : Tensor) (i : nat),
    (generate_loop max_length stop_tokens tqb ids).2
    = before ++ [EngineEval; ExecuteSchedule ids0; Broadcast src toks;
                 SetPostfix (S i) max_length]
    /\ writes_column (S i) ids0 toks
         (generate_loop max_length stop_tokens tqb ids).1.
Proof.
  revert ids. induction tqb as [|i rest IH]; intros ids Hids Hin Hs.
  - by apply elem_of_nil in Hin.
  - pose proof (generate_round_writes_column max_length stop_tokens i ids Hids)
      as Hw. cbn [generate_round fst] in Hw.
    rewrite generate_loop_cons in Hin |- *. cbn zeta in Hin |- *.
    destruct (has_stop stop_tokens (next_tokens i ids)) eqn:Hstop;
      cbn [fst snd] in Hin |- *.
    + repeat (apply elem_of_cons in Hin as [Heq|Hin]; [|]);
        try discriminate; [|by apply elem_of_nil in Hin].
      injection Heq as -> ->. by exists [], ids, i.
    + cbn in Hin. repeat (apply elem_of_cons in Hin as [Heq|Hin]; [|]);
        try discriminate.
      { injection Heq as -> ->. congruence. }
      assert (Hwf1 : wf (store_column (S i) (next_tokens i ids)
                           (pad_columns (S i) ids)))
        by (by apply store_column_wf, pad_columns_wf).
      destruct (IH _ Hwf1 Hin Hs) as (before & ids0 & j & Htr & Hwr).
      exists ([EngineEval; ExecuteSchedule ids;
               Broadcast broadcast_src (next_tokens i ids);
               SetPostfix (S i) max_length; EmptyCache] ++ before), ids0, j.
      rewrite Htr. by rewrite <- app_assoc.
Qed.

(** The labels of a batch that does not share them are left alone. *)
Lemma generate_batch_loop_own_labels (max_length : Z) (stop_tokens : list Z)
    (tqb : list nat) (batch : Batch) :
  labels_shared batch = false ->
  labels (generate_batch_loop max_length stop_tokens tqb batch).1 = labels batch
  /\ labels_shared (generate_batch_loop max_length stop_tokens tqb batch).1
     = false.
Proof.
  revert batch. induction tqb as [|i rest IH]; intros batch Hown; [done|].
  cbn [generate_batch_loop generate_round_batch generate_round].
  rewrite Hown. cbn [andb].
  destruct (has_stop stop_tokens (next_tokens i (input_ids batch))); [done|].
  match goal with
  | |- context [generate_batch_loop max_length stop_tokens rest ?b] =>
      specialize (IH b eq_refl);
      destruct (generate_batch_loop max_length stop_tokens rest b)
  end.
  exact IH.
Qed.


(** *** The claims on [generate] *)

(** C3.  [generate] is a total function: the loop of line 128 runs at most
    [max_length] rounds (none when [max_length] is not positive), every
    position it reports is at most [max_length], the loop of line 148 is
    well-founded, and the batch comes back with its number of rows.  Its
    labels come back as they were unless they are the [input_ids] tensor
    itself, which the rounds write in place. *)
Theorem generate_bounded (batch : Batch) (max_length : Z) (stop_tokens : list Z) :
  Z.of_nat (rounds (generate batch max_length stop_tokens).2) <= Z.max 0 max_length
  /\ Forall (within max_length) (generate batch max_length stop_tokens).2
  /\ nrows (input_ids (generate batch max_length stop_tokens).1)
     = nrows (input_ids batch)
  /\ (labels_shared batch = true
      \/ labels (generate batch max_length stop_tokens).1 = labels batch).
Proof.
  split; [|split; [|split]].
  - rewrite generate_unfold. cbn [snd].
    pose proof (generate_loop_rounds max_length stop_tokens
                  (seq 0 (Z.to_nat max_length)) (input_ids batch)) as H.
    rewrite length_seq in H. lia.
  - rewrite generate_unfold. cbn [snd].
    apply generate_loop_within, Forall_forall. intros i Hi.
    apply elem_of_seq in Hi. lia.
  - rewrite generate_unfold. cbn [fst input_ids]. apply generate_loop_nrows.
  - destruct (labels_shared batch) eqn:Hshared; [by left|right].
    unfold generate. by apply generate_batch_loop_own_labels.
Qed.

(** C4, as the code has it.  For a positive [max_length] and a rectangular
    batch, fewer than [max_length] rounds run to their end if and only if
    some round received a token of [stop_tokens].  That round is then the
    last one of the trace and stops after the progress-bar update, when
    line 150 has been run: the tensor returned is the tensor [ids0] that
    round passed to the engine, with, in every row, the entry at
    [current_pos] replaced by the row's token if it was 0, and kept
    otherwise. *)
Theorem generate_stops_early (batch : Batch) (max_length : Z) (stop_tokens : list Z) :
  wf (input_ids batch) ->
  max_length > 0 ->
  (Z.of_nat (completed (generate batch max_length stop_tokens).2) < max_length
   <-> exists src toks,
         Broadcast src toks ∈ (generate batch max_length stop_tokens).2
         /\ exists tok, tok ∈ toks /\ tok ∈ stop_tokens)
  /\ forall src toks tok,
       Broadcast src toks ∈ (generate batch max_length stop_tokens).2 ->
       tok ∈ toks -> tok ∈ stop_tokens ->
       exists (before : list event) (ids0 : Tensor) (i : nat),
         (generate batch max_length stop_tokens).2
         = before ++ [EngineEval; ExecuteSchedule ids0; Broadcast src toks;
                      SetPostfix (S i) max_length]
         /\ length toks = nrows ids0
         /\ forall r row, rows ids0 !! r = Some row ->
              exists row' tok_r old,
                rows (input_ids (generate batch max_length stop_tokens).1) !! r
                = Some row'
                /\ toks !! r = Some tok_r
                /\ (row ++ replicate (S (S i) - ncols ids0) 0) !! S i = Some old
                /\ (old = 0 -> row' !! S i = Some tok_r)
                /\ (old <> 0 -> row' !! S i = Some old).
Proof.
  intros Hwf Hpos. rewrite generate_unfold. cbn [fst snd input_ids]. split.
  - pose proof (generate_loop_stop_iff max_length stop_tokens
                  (seq 0 (Z.to_nat max_length)) (input_ids batch)) as H.
    rewrite length_seq in H.
    setoid_rewrite <- has_stop_true. rewrite <- H. lia.
  - intros src toks tok Hin Htok Hstop.
    destruct (generate_loop_stop_write max_length stop_tokens
                (seq 0 (Z.to_nat max_length)) (input_ids batch) src toks
                Hwf Hin) as (before & ids0 & i & Htr & Hlen & _ & Hcols & Hrows).
    { apply has_stop_true. by exists tok. }
    exists before, ids0, i. split; [done|]. split; [done|].
    intros r row Hrow.
    destruct (Hrows r row Hrow)
      as (row' & tok_r & old & Hrow' & Htok_r & Hold & Hz & Hnz & _).
    exists row', tok_r, old.
    replace (S (S i) - ncols ids0)%nat
      with (ncols (generate_loop max_length stop_tokens
                     (seq 0 (Z.to_nat max_length)) (input_ids batch)).1
            - ncols ids0)%nat by lia.
    done.
Qed.

(** C6, as the code has it.  The tensors [generate] passes to the engine,
    followed by the tensor it returns, form a chain that starts at the
    batch's [input_ids]; round [k + 1] receives one token per row and makes
    the next tensor from the one it was given by lines 148-150: the rows
    are kept and widened with zero columns just enough for column
    [k + 1] to exist, in every row the entry at column [k + 1] becomes the
    row's token if it was 0 and is kept if it was not, and no entry of
    another column changes.  The columns written are 1, 2, 3, ... in
    turn. *)
Theorem generate_writes_one_column_per_round (batch : Batch) (max_length : Z)
    (stop_tokens : list Z) :
  wf (input_ids batch) ->
  let t := (generate batch max_length stop_tokens).2 in
  let ts := forwarded t ++ [input_ids (generate batch max_length stop_tokens).1] in
  ts !! 0%nat = Some (input_ids batch)
  /\ length (forwarded t) = rounds t
  /\ length (received t) = rounds t
  /\ positions t = seq 1 (rounds t)
  /\ forall k a b toks,
       ts !! k = Some a -> ts !! S k = Some b -> received t !! k = Some toks ->
       length toks = nrows a
       /\ nrows b = nrows a
       /\ ncols b = (ncols a `max` S (S k))%nat
       /\ forall r row, rows a !! r = Some row ->
            exists row' tok old,
              rows b !! r = Some row'
              /\ toks !! r = Some tok
              /\ (row ++ replicate (ncols b - ncols a) 0) !! S k = Some old
              /\ (old = 0 -> row' !! S k = Some tok)
              /\ (old <> 0 -> row' !! S k = Some old)
              /\ forall c, c <> S k ->
                   row' !! c = (row ++ replicate (ncols b - ncols a) 0) !! c.
Proof.
  intros Hwf. cbn zeta. rewrite generate_unfold. cbn [fst snd input_ids].
  destruct (generate_loop_chain max_length stop_tokens 0 (Z.to_nat max_length)
              (input_ids batch) Hwf) as (H0 & Hf & Hr & Hstep).
  split; [exact H0|]. split; [exact Hf|]. split; [exact Hr|].
  split; [apply generate_loop_positions|].
  intros k a b toks Ha Hb Htoks. exact (Hstep k a b toks Ha Hb Htoks).
Qed.

(** C8.  With [max_length <= 0] the range is empty: [generate] makes no
    call at all and returns the batch as it got it. *)
Theorem generate_nonpositive (batch : Batch) (max_length : Z) (stop_tokens : list Z) :
  max_length <= 0 ->
  generate batch max_length stop_tokens = (batch, [])
  /\ rounds (generate batch max_length stop_tokens).2 = 0%nat.
Proof. intros Hml. by rewrite generate_no_round. Qed.

(** C9.  In a round, the entry of row [r] at the column written is [old]
    before the write (after the padding of line 148).  A nonzero [old]
    stays; a zero is replaced by the token received for the row.  When the
    column was already in the tensor, [old] is the entry that was there. *)
Theorem generate_round_keeps_nonzero (max_length : Z) (stop_tokens : list Z)
    (i : nat) (ids : Tensor) (r : nat) :
  wf ids ->
  (r < nrows ids)%nat ->
  exists row row' old tok,
    rows (pad_columns (S i) ids) !! r = Some row
    /\ row !! S i = Some old
    /\ next_tokens i ids !! r = Some tok
    /\ rows (generate_round max_length stop_tokens i ids).1.1 !! r = Some row'
    /\ (old <> 0 -> row' !! S i = Some old)
    /\ (old = 0 -> row' !! S i = Some tok)
    /\ (forall c, c <> S i -> row' !! c = row !! c)
    /\ (forall row0 v, rows ids !! r = Some row0 -> row0 !! S i = Some v -> old = v).
Proof.
  intros Hids Hr.
  destruct (lookup_lt_is_Some_2 (rows ids) r Hr) as [row0 Hrow0].
  destruct (generate_round_row max_length stop_tokens i ids r row0 Hids Hrow0)
    as (old & tok & Htok & Hold & Hrow').
  exists (row0 ++ replicate (S (S i) - ncols ids) 0),
    (<[S i := where_zero old tok]> (row0 ++ replicate (S (S i) - ncols ids) 0)),
    old, tok.
  assert (Hlt : (S i < length (row0 ++ replicate (S (S i) - ncols ids) 0%Z))%nat)
    by (by eapply lookup_lt_Some).
  split. { rewrite pad_columns_spec. cbn [rows]. by rewrite list_lookup_fmap, Hrow0. }
  split; [done|]. split; [done|]. split; [done|].
  split; [|split; [|split]].
  - intros Hnz. rewrite list_lookup_insert_eq by exact Hlt. unfold where_zero.
    destruct (Z.eqb_spec old 0) as [Hz|_]; [contradiction|reflexivity].
  - intros ->. rewrite list_lookup_insert_eq by exact Hlt. reflexivity.
  - intros c Hc. rewrite list_lookup_insert_ne by congruence. reflexivity.
  - intros row1 v Hrow1 Hv. rewrite Hrow0 in Hrow1. injection Hrow1 as <-.
    rewrite lookup_app_l in Hold by (by eapply lookup_lt_Some). congruence.
Qed.

(** *** Invariants of the loop *)

(** An entry that is nonzero, or stands in column 0, survives a round. *)
Lemma generate_round_keeps (max_length : Z) (stop_tokens : list Z)
    (i : nat) (ids : Tensor) (r c : nat) (row : list Z) (v : Z) :
  wf ids ->
  rows ids !! r = Some row ->
  row !! c = Some v ->
  v <> 0 \/ c = 0%nat ->
  exists row',
    rows (generate_round max_length stop_tokens i ids).1.1 !! r = Some row'
    /\ row' !! c = Some v.
Proof.
  intros Hids Hrow Hv Hkeep.
  destruct (generate_round_row max_length stop_tokens i ids r row Hids Hrow)
    as (old & tok & _ & Hold & Hrow').
  eexists. split; [exact Hrow'|].
  assert (Hc : (c < length row)%nat) by (by eapply lookup_lt_Some).
  destruct (decide (c = S i)) as [->|Hne].
  - rewrite lookup_app_l in Hold by done.
    rewrite Hv in Hold. injection Hold as <-.
    rewrite list_lookup_insert_eq by (rewrite length_app; lia).
    unfold where_zero. destruct Hkeep as [Hnz|?]; [|done].
    by destruct (Z.eqb_spec v 0).
  - rewrite list_lookup_insert_ne by done. by rewrite lookup_app_l.
Qed.

Lemma generate_loop_keeps (max_length : Z) (stop_tokens : list Z)
    (tqb : list nat) (ids : Tensor) (r c : nat) (row : list Z) (v : Z) :
  wf ids ->
  rows ids !! r = Some row ->
  row !! c = Some v ->
  v <> 0 \/ c = 0%nat ->
  exists row',
    rows (generate_loop max_length stop_tokens tqb ids).1 !! r = Some row'
    /\ row' !! c = Some v.
Proof.
  revert ids row. induction tqb as [|i rest IH]; intros ids row Hids Hrow Hv Hkeep.
  - by exists row.
  - destruct (generate_round_keeps max_length stop_tokens i ids r c row v
                Hids Hrow Hv Hkeep) as (row1 & Hrow1 & Hv1).
    rewrite generate_loop_cons. cbn zeta.
    destruct (has_stop stop_tokens (next_tokens i ids)); cbn [fst].
    + by exists row1.
    + eapply IH; [|exact Hrow1|exact Hv1|exact Hkeep].
      by apply store_column_wf, pad_columns_wf.
Qed.

Lemma generate_loop_ncols (max_length : Z) (stop_tokens : list Z)
    (j n : nat) (ids : Tensor) :
  ncols (generate_loop max_length stop_tokens (seq j n) ids).1
  = match rounds (generate_loop max_length stop_tokens (seq j n) ids).2 with
    | O => ncols ids
    | S k => (ncols ids `max` S (S (j + k)))%nat
    end.
Proof.
  revert j ids. induction n as [|n IH]; intros j ids; [done|].
  cbn [seq]. rewrite generate_loop_cons. cbn zeta.
  destruct (has_stop stop_tokens (next_tokens j ids)); cbn [fst snd].
  - cbn. rewrite pad_columns_spec. cbn. lia.
  - rewrite rounds_round, IH.
    assert (Hw : ncols (store_column (S j) (next_tokens j ids)
                          (pad_columns (S j) ids))
                 = (ncols ids `max` S (S j))%nat)
      by (cbn; by rewrite pad_columns_spec).
    rewrite Hw.
    destruct (rounds _) as [|k]; lia.
Qed.

(** Every tensor the loop receives has one token per row. *)
Lemma generate_loop_tokens_length (max_length : Z) (stop_tokens : list Z)
    (tqb : list nat) (ids : Tensor) (src : Z) (toks : list Z) :
  Broadcast src toks ∈ (generate_loop max_length stop_tokens tqb ids).2 ->
  length toks = nrows ids.
Proof.
  revert ids. induction tqb as [|i rest IH]; intros ids Hin.
  - by apply elem_of_nil in Hin.
  - rewrite generate_loop_cons in Hin. cbn zeta in Hin.
    destruct (has_stop stop_tokens (next_tokens i ids)); cbn [snd] in Hin.
    + repeat (apply elem_of_cons in Hin as [Heq|Hin]; [|]);
        try discriminate; [|by apply elem_of_nil in Hin].
      injection Heq as -> ->. apply length_next_tokens.
    + cbn in Hin. repeat (apply elem_of_cons in Hin as [Heq|Hin]; [|]);
        try discriminate.
      { injection Heq as -> ->. apply length_next_tokens. }
      rewrite (IH _ Hin). apply store_column_nrows, pad_columns_nrows.
Qed.

Lemma generate_loop_rounds_completed (max_length : Z) (stop_tokens : list Z)
    (tqb : list nat) (ids : Tensor) :
  let t := (generate_loop max_length stop_tokens tqb ids).2 in
  (rounds t = completed t /\ completed t = length tqb
   /\ ~ exists src toks, Broadcast src toks ∈ t /\ has_stop stop_tokens toks = true)
  \/ (rounds t = S (completed t)
      /\ exists src toks, Broadcast src toks ∈ t /\ has_stop stop_tokens toks = true).
Proof.
  revert ids. induction tqb as [|i rest IH]; intros ids.
  - left. split; [done|]. split; [done|].
    intros (src & toks & Hin & _). by apply elem_of_nil in Hin.
  - cbn zeta. rewrite generate_loop_cons. cbn zeta.
    destruct (has_stop stop_tokens (next_tokens i ids)) eqn:Hstop; cbn [snd].
    + right. split; [done|]. exists broadcast_src, (next_tokens i ids).
      split; [|done]. do 2 apply list_elem_of_further. apply list_elem_of_here.
    + rewrite rounds_round, completed_round.
      destruct (IH (store_column (S i) (next_tokens i ids)
                      (pad_columns (S i) ids)))
        as [(Hr & Hc & Hno)|(Hr & src & toks & Hin & Hs)].
      * left. split; [by rewrite Hr|]. split; [by rewrite Hc|].
        intros (src & toks & Hin & Hs). cbn in Hin.
        repeat (apply elem_of_cons in Hin as [Heq|Hin]; [|]);
          try discriminate.
        { injection Heq as -> ->. congruence. }
        apply Hno. by exists src, toks.
      * right. split; [by rewrite Hr|]. exists src, toks. split; [|done].
        cbn. by do 5 apply list_elem_of_further.
Qed.

Lemma lookup_pad (row : list Z) (n c : nat) (v : Z) :
  (row ++ replicate n 0) !! c = Some v
  <-> row !! c = Some v \/ ((length row <= c < length row + n)%nat /\ v = 0).
Proof.
  destruct (decide (c < length row)%nat) as [Hc|Hc].
  - rewrite lookup_app_l by done. split; [by left|].
    intros [?|[? _]]; [done|lia].
  - rewrite lookup_app_r by lia. rewrite lookup_replicate.
    rewrite (lookup_ge_None_2 row c) by lia. split.
    + intros [-> ?]. right. split; [lia|done].
    + intros [?|[? ->]]; [done|]. split; [done|lia].
Qed.

Lemma generate_loop_ncols_le (max_length : Z) (stop_tokens : list Z)
    (tqb : list nat) (ids : Tensor) :
  (ncols ids <= ncols (generate_loop max_length stop_tokens tqb ids).1)%nat.
Proof.
  revert ids. induction tqb as [|i rest IH]; intros ids; [done|].
  rewrite generate_loop_cons. cbn zeta.
  assert (Hw : ncols (store_column (S i) (next_tokens i ids)
                        (pad_columns (S i) ids))
               = (ncols ids `max` S (S i))%nat)
    by (cbn; by rewrite pad_columns_spec).
  destruct (has_stop stop_tokens (next_tokens i ids)); cbn [fst]; [lia|].
  specialize (IH (store_column (S i) (next_tokens i ids)
                    (pad_columns (S i) ids))). lia.
Qed.

(** An entry after a round is the padded old entry or the token received
    for the row. *)
Lemma generate_round_entry (max_length : Z) (stop_tokens : list Z)
    (i : nat) (ids : Tensor) (r c : nat) (row row1 : list Z) (v : Z) :
  wf ids ->
  rows ids !! r = Some row ->
  rows (generate_round max_length stop_tokens i ids).1.1 !! r = Some row1 ->
  row1 !! c = Some v ->
  length row1 = (ncols ids `max` S (S i))%nat
  /\ ((row ++ replicate (S (S i) - ncols ids) 0) !! c = Some v
      \/ next_tokens i ids !! r = Some v).
Proof.
  intros Hids Hrow Hrow1 Hv.
  assert (Hlen : length row = ncols ids)
    by (by eapply (Forall_lookup_1 _ _ _ _ Hids)).
  destruct (generate_round_row max_length stop_tokens i ids r row Hids Hrow)
    as (old & tok & Htok & Hold & Hrow').
  rewrite Hrow1 in Hrow'. injection Hrow' as ->.
  split. { rewrite length_insert, length_app, length_replicate. lia. }
  destruct (decide (c = S i)) as [->|Hne].
  - rewrite list_lookup_insert_eq in Hv by (by eapply lookup_lt_Some).
    injection Hv as <-. unfold where_zero.
    destruct (Z.eqb_spec old 0); [by right|by left].
  - rewrite list_lookup_insert_ne in Hv by done. by left.
Qed.

Lemma generate_loop_entries (max_length : Z) (stop_tokens : list Z)
    (tqb : list nat) (ids : Tensor) (r c : nat) (row' : list Z) (v : Z) :
  wf ids ->
  rows (generate_loop max_length stop_tokens tqb ids).1 !! r = Some row' ->
  row' !! c = Some v ->
  (exists row,
     rows ids !! r = Some row
     /\ (row ++ replicate
                  (ncols (generate_loop max_length stop_tokens tqb ids).1
                   - ncols ids) 0) !! c = Some v)
  \/ (exists src toks,
        Broadcast src toks ∈ (generate_loop max_length stop_tokens tqb ids).2
        /\ toks !! r = Some v).
Proof.
  revert ids. induction tqb as [|i rest IH]; intros ids Hids Hrow' Hv.
  - left. exists row'. split; [done|]. apply lookup_pad. by left.
  - pose proof (generate_loop_ncols_le max_length stop_tokens rest
                  (store_column (S i) (next_tokens i ids)
                     (pad_columns (S i) ids))) as Hle.
    assert (Hw : ncols (store_column (S i) (next_tokens i ids)
                          (pad_columns (S i) ids))
                 = (ncols ids `max` S (S i))%nat)
      by (cbn; by rewrite pad_columns_spec).
    assert (Hwf1 : wf (store_column (S i) (next_tokens i ids)
                         (pad_columns (S i) ids)))
      by (by apply store_column_wf, pad_columns_wf).
    destruct (lookup_lt_is_Some_2 (rows ids) r) as [row Hrow].
    { apply lookup_lt_Some in Hrow'.
      fold (nrows (generate_loop max_length stop_tokens (i :: rest) ids).1)
        in Hrow'.
      by rewrite generate_loop_nrows in Hrow'. }
    assert (Hlen : length row = ncols ids)
      by (by eapply (Forall_lookup_1 _ _ _ _ Hids)).
    rewrite generate_loop_cons in Hrow' |- *. cbn zeta in Hrow' |- *.
    destruct (has_stop stop_tokens (next_tokens i ids)); cbn [fst snd] in *.
    + destruct (generate_round_entry max_length stop_tokens i ids r c row row' v
                  Hids Hrow Hrow' Hv) as [_ [Hpad|Htok]].
      * left. exists row. split; [done|]. rewrite Hw.
        by replace (ncols ids `max` S (S i) - ncols ids)%nat
          with (S (S i) - ncols ids)%nat by lia.
      * right. exists broadcast_src, (next_tokens i ids). split; [|done].
        do 2 apply list_elem_of_further. apply list_elem_of_here.
    + destruct (IH _ Hwf1 Hrow' Hv)
        as [(row1 & Hrow1 & Hpad1)|(src & toks & Hin & Htok)].
      2:{ right. exists src, toks. split; [|done].
          cbn. by do 5 apply list_elem_of_further. }
      apply lookup_pad in Hpad1 as [Hv1|[Hc ->]].
      * destruct (generate_round_entry max_length stop_tokens i ids r c row row1 v
                    Hids Hrow Hrow1 Hv1) as [_ [Hpad|Htok]].
        -- left. exists row. split; [done|].
           apply lookup_pad. apply lookup_pad in Hpad as [?|[? ->]];
             [by left|right]. split; [lia|done].
        -- right. exists broadcast_src, (next_tokens i ids). split; [|done].
           do 2 apply list_elem_of_further. apply list_elem_of_here.
      * left. exists row. split; [done|]. apply lookup_pad. right.
        assert (length row1 = (ncols ids `max` S (S i))%nat).
        { rewrite <- Hw. by eapply (Forall_lookup_1 _ _ _ _ Hwf1). }
        split; [lia|done].
Qed.

(** *** Further properties of [generate] *)

(** X6.  [generate] never overwrites the prompt: an entry of the batch that
    is nonzero is still there when it returns, and so is every entry of
    column 0, which no round writes. *)
Theorem generate_keeps_prompt (batch : Batch) (max_length : Z)
    (stop_tokens : list Z) (r c : nat) (row : list Z) (v : Z) :
  wf (input_ids batch) ->
  rows (input_ids batch) !! r = Some row ->
  row !! c = Some v ->
  v <> 0 \/ c = 0%nat ->
  exists row',
    rows (input_ids (generate batch max_length stop_tokens).1) !! r = Some row'
    /\ row' !! c = Some v.
Proof.
  intros Hwf Hrow Hv Hkeep. rewrite generate_unfold. cbn [fst input_ids].
  by eapply generate_loop_keeps.
Qed.

(** X7.  The tensor stays rectangular and grows only when a round needs a
    column it does not have: after [k + 1] rounds its width is the larger
    of the old width and [k + 2]; a batch wider than [max_length] keeps its
    width. *)
Theorem generate_width (batch : Batch) (max_length : Z) (stop_tokens : list Z) :
  wf (input_ids batch) ->
  wf (input_ids (generate batch max_length stop_tokens).1)
  /\ ncols (input_ids (generate batch max_length stop_tokens).1)
     = match rounds (generate batch max_length stop_tokens).2 with
       | O => ncols (input_ids batch)
       | S k => (ncols (input_ids batch) `max` S (S k))%nat
       end
  /\ (max_length < Z.of_nat (ncols (input_ids batch)) ->
      ncols (input_ids (generate batch max_length stop_tokens).1)
      = ncols (input_ids batch)).
Proof.
  intros Hwf. rewrite generate_unfold. cbn [fst snd input_ids].
  split; [by apply generate_loop_wf|].
  pose proof (generate_loop_ncols max_length stop_tokens 0
                (Z.to_nat max_length) (input_ids batch)) as Hn.
  pose proof (generate_loop_rounds max_length stop_tokens
                (seq 0 (Z.to_nat max_length)) (input_ids batch)) as Hr.
  rewrite length_seq in Hr. cbn [Nat.add] in Hn.
  split; [exact Hn|]. intros Hlt. rewrite Hn.
  destruct (rounds _) as [|k]; lia.
Qed.

(** X8.  Without stop tokens, or on a batch with no rows, nothing can stop
    the loop: it runs every round of [range(max_length)] to its end. *)
Theorem generate_never_stops (batch : Batch) (max_length : Z)
    (stop_tokens : list Z) :
  stop_tokens = [] \/ nrows (input_ids batch) = 0%nat ->
  rounds (generate batch max_length stop_tokens).2 = Z.to_nat max_length
  /\ completed (generate batch max_length stop_tokens).2 = Z.to_nat max_length.
Proof.
  intros Hnone. rewrite generate_unfold. cbn [snd].
  destruct (generate_loop_rounds_completed max_length stop_tokens
              (seq 0 (Z.to_nat max_length)) (input_ids batch))
    as [(Hr & Hc & _)|(_ & src & toks & Hin & Hs)].
  - rewrite length_seq in Hc. by rewrite Hr, Hc.
  - exfalso. apply has_stop_true in Hs as (tok & Htok & Hstop).
    destruct Hnone as [->|Hrows].
    + by apply elem_of_nil in Hstop.
    + apply generate_loop_tokens_length in Hin. rewrite Hrows in Hin.
      destruct toks; [by apply elem_of_nil in Htok|done].
Qed.

(** X9.  A stop token costs exactly one round: the rounds started are the
    rounds completed, plus one if and only if some round received a token
    of [stop_tokens]. *)
Theorem generate_rounds_completed (batch : Batch) (max_length : Z)
    (stop_tokens : list Z) :
  (completed (generate batch max_length stop_tokens).2
   <= rounds (generate batch max_length stop_tokens).2
   <= S (completed (generate batch max_length stop_tokens).2))%nat
  /\ (rounds (generate batch max_length stop_tokens).2
      = S (completed (generate batch max_length stop_tokens).2)
      <-> exists src toks,
            Broadcast src toks ∈ (generate batch max_length stop_tokens).2
            /\ exists tok, tok ∈ toks /\ tok ∈ stop_tokens).
Proof.
  rewrite generate_unfold. cbn [snd].
  setoid_rewrite <- has_stop_true.
  destruct (generate_loop_rounds_completed max_length stop_tokens
              (seq 0 (Z.to_nat max_length)) (input_ids batch))
    as [(Hr & _ & Hno)|(Hr & Hex)].
  - split; [lia|]. split; [lia|done].
  - split; [lia|]. by split.
Qed.

(** X10.  [generate] invents nothing: every entry of the tensor it returns
    is the entry the batch had there, a zero of a column appended by line
    149, or a token received for that row in some round. *)
Theorem generate_entries (batch : Batch) (max_length : Z)
    (stop_tokens : list Z) (r c : nat) (row' : list Z) (v : Z) :
  wf (input_ids batch) ->
  rows (input_ids (generate batch max_length stop_tokens).1) !! r = Some row' ->
  row' !! c = Some v ->
  (exists row, rows (input_ids batch) !! r = Some row
               /\ (row !! c = Some v
                   \/ ((ncols (input_ids batch) <= c)%nat /\ v = 0)))
  \/ (exists src toks,
        Broadcast src toks ∈ (generate batch max_length stop_tokens).2
        /\ toks !! r = Some v).
Proof.
  intros Hwf. rewrite generate_unfold. cbn [fst snd input_ids].
  intros Hrow' Hv.
  destruct (generate_loop_entries max_length stop_tokens _ _ r c row' v
              Hwf Hrow' Hv) as [(row & Hrow & Hpad)|Htok]; [left|by right].
  exists row. split; [done|].
  assert (Hlen : length row = ncols (input_ids batch))
    by (by eapply (Forall_lookup_1 _ _ _ _ Hwf)).
  apply lookup_pad in Hpad as [?|[? ->]]; [by left|right]. split; [lia|done].
Qed.

(** As long as no column is appended, labels that are the [input_ids]
    tensor stay that tensor. *)
Lemma generate_batch_loop_shared_labels (max_length : Z) (stop_tokens : list Z)
    (tqb : list nat) (batch : Batch) :
  labels_shared batch = true ->
  labels batch = input_ids batch ->
  Forall (fun i => (S i < ncols (input_ids batch))%nat) tqb ->
  labels (generate_batch_loop max_length stop_tokens tqb batch).1
  = input_ids (generate_batch_loop max_length stop_tokens tqb batch).1
  /\ labels_shared (generate_batch_loop max_length stop_tokens tqb batch).1
     = true.
Proof.
  revert batch. induction tqb as [|i rest IH]; intros batch Hsh Heq Hall; [done|].
  apply Forall_cons in Hall as [Hi Hrest].
  cbn [generate_batch_loop generate_round_batch generate_round].
  rewrite Hsh, (bool_decide_eq_true_2 _ Hi). cbn [andb].
  destruct (has_stop stop_tokens (next_tokens i (input_ids batch))); [done|].
  match goal with
  | |- context [generate_batch_loop max_length stop_tokens rest ?b] =>
      specialize (IH b eq_refl eq_refl);
      destruct (generate_batch_loop max_length stop_tokens rest b)
  end.
  apply IH. cbn [input_ids store_column ncols]. rewrite pad_columns_spec.
  cbn [ncols]. eapply Forall_impl; [exact Hrest|]. intros k Hk. cbn in *. lia.
Qed.

(** X18.  When the labels of a batch are its [input_ids] tensor (as
    [collate_fn] builds it from an [int64] tensor) and the batch is wider
    than [max_length], [generate] writes the labels too: they come back
    equal to the generated [input_ids], still the same tensor. *)
Theorem generate_writes_shared_labels (batch : Batch) (max_length : Z)
    (stop_tokens : list Z) :
  labels_shared batch = true ->
  labels batch = input_ids batch ->
  max_length < Z.of_nat (ncols (input_ids batch)) ->
  labels (generate batch max_length stop_tokens).1
  = input_ids (generate batch max_length stop_tokens).1
  /\ labels_shared (generate batch max_length stop_tokens).1 = true.
Proof.
  intros Hsh Heq Hlt. unfold generate.
  apply generate_batch_loop_shared_labels; [done|done|].
  apply Forall_forall. intros i Hi. apply elem_of_seq in Hi. lia.
Qed.

End Generator.


(** *** A small run *)

Lemma sample_ids_wf : wf sample_ids.
Proof. repeat constructor. Qed.

(** Token 61 arrives in the third round, which is cut before
    [empty_cache()]; the fourth round never starts. *)
Example generate_sample :
  generate true 8 sample_argmax sample_broadcast sample_batch 4 [61]
  = ({| input_ids := {| ncols := 4; rows := [[5; 6; 50; 60]; [7; 41; 51; 61]] |};
        labels := sample_ids; labels_shared := false |},
     [EngineEval; ExecuteSchedule sample_ids;
      Broadcast 7 [40; 41]; SetPostfix 1 4; EmptyCache;
      EngineEval; ExecuteSchedule {| ncols := 3; rows := [[5; 6; 0]; [7; 41; 0]] |};
      Broadcast 7 [50; 51]; SetPostfix 2 4; EmptyCache;
      EngineEval; ExecuteSchedule {| ncols := 3; rows := [[5; 6; 50]; [7; 41; 51]] |};
      Broadcast 7 [60; 61]; SetPostfix 3 4]).
Proof. by vm_compute. Qed.

(** A stop token in the very last round: all four rounds start, three run to
    their end. *)
Example generate_sample_stop_in_last_round :
  let t := (generate true 8 sample_argmax sample_broadcast sample_batch 4 [70]).2 in
  rounds t = 4%nat /\ completed t = 3%nat.
Proof. by vm_compute. Qed.

(** [eval_max_length = -1]: no round. *)
Example generate_sample_minus_one :
  generate true 8 sample_argmax sample_broadcast sample_batch (-1) [2]
  = (sample_batch, []).
Proof. by vm_compute. Qed.

(** The same run on a batch whose labels are the [input_ids] tensor: the
    first two rounds write that tensor, and the labels with it; the third
    appends a column, binds a new tensor and leaves the labels behind. *)
Example generate_shared_labels :
  (generate true 8 sample_argmax sample_broadcast shared_batch 4 [61]).1
  = {| input_ids := {| ncols := 4; rows := [[5; 6; 50; 60]; [7; 41; 51; 61]] |};
       labels := {| ncols := 3; rows := [[5; 6; 50]; [7; 41; 51]] |};
       labels_shared := false |}.
Proof. by vm_compute. Qed.

(** Token 40 stops the loop in its first round, yet it is nowhere in the
    tensor returned: row 0 already had a 6 in column 1. *)
Lemma stop_token_not_written :
  generate true 8 sample_argmax sample_broadcast sample_batch 4 [40]
  = ({| input_ids := {| ncols := 3; rows := [[5; 6; 0]; [7; 41; 0]] |};
        labels := sample_ids; labels_shared := false |},
     [EngineEval; ExecuteSchedule sample_ids;
      Broadcast 7 [40; 41]; SetPostfix 1 4])
  /\ 40 ∈ [40; 41]
  /\ 40 ∈ [40]
  /\ Forall (fun row : list Z => 40 ∉ row) [[5; 6; 0]; [7; 41; 0]].
Proof.
  split; [by vm_compute|]. split; [apply list_elem_of_here|].
  split; [apply list_elem_of_here|].
  apply (bool_decide_unpack _). by vm_compute.
Qed.

(** One round, no stop token: token 40 is predicted for row 0 and is not
    written, the row is as long and as it was. *)
Lemma predicted_token_not_written :
  generate true 8 sample_argmax sample_broadcast sample_batch 1 []
  = ({| input_ids := {| ncols := 3; rows := [[5; 6; 0]; [7; 41; 0]] |};
        labels := sample_ids; labels_shared := false |},
     [EngineEval; ExecuteSchedule sample_ids;
      Broadcast 7 [40; 41]; SetPostfix 1 1; EmptyCache])
  /\ rows sample_ids !! 0%nat = Some [5; 6; 0]
  /\ [40; 41] !! 0%nat = Some 40
  /\ 40 ∉ [5; 6; 0].
Proof.
  split; [by vm_compute|]. split; [done|]. split; [done|].
  apply (bool_decide_unpack _). by vm_compute.
Qed.

Lemma generate_stops_early_witness :
  wf (input_ids sample_batch)
  /\ 4 > 0
  /\ (Z.of_nat (completed (generate true 8 sample_argmax sample_broadcast
                             sample_batch 4 [61]).2) < 4
      <-> exists src toks,
            Broadcast src toks
              ∈ (generate true 8 sample_argmax sample_broadcast
                   sample_batch 4 [61]).2
            /\ exists tok, tok ∈ toks /\ tok ∈ [61])
  /\ forall src toks tok,
       Broadcast src toks
         ∈ (generate true 8 sample_argmax sample_broadcast sample_batch 4 [61]).2 ->
       tok ∈ toks -> tok ∈ [61] ->
       exists (before : list event) (ids0 : Tensor) (i : nat),
         (generate true 8 sample_argmax sample_broadcast sample_batch 4 [61]).2
         = before ++ [EngineEval; ExecuteSchedule ids0; Broadcast src toks;
                      SetPostfix (S i) 4]
         /\ length toks = nrows ids0
         /\ forall r row, rows ids0 !! r = Some row ->
              exists row' tok_r old,
                rows (input_ids (generate true 8 sample_argmax sample_broadcast
                                   sample_batch 4 [61]).1) !! r
                = Some row'
                /\ toks !! r = Some tok_r
                /\ (row ++ replicate (S (S i) - ncols ids0) 0) !! S i = Some old
                /\ (old = 0 -> row' !! S i = Some tok_r)
                /\ (old <> 0 -> row' !! S i = Some old).
Proof.
  assert (H : 4 > 0) by lia.
  split; [exact sample_ids_wf|]. split; [exact H|].
  exact (generate_stops_early true 8 sample_argmax sample_broadcast
           sample_batch 4 [61] sample_ids_wf H).
Defined.

Lemma generate_writes_one_column_per_round_witness :
  wf (input_ids sample_batch)
  /\ let t := (generate true 8 sample_argmax sample_broadcast
                 sample_batch 4 [61]).2 in
     let ts := forwarded t
               ++ [input_ids (generate true 8 sample_argmax sample_broadcast
                                sample_batch 4 [61]).1] in
     ts !! 0%nat = Some (input_ids sample_batch)
     /\ length (forwarded t) = rounds t
     /\ length (received t) = rounds t
     /\ positions t = seq 1 (rounds t)
     /\ forall k a b toks,
          ts !! k = Some a -> ts !! S k = Some b -> received t !! k = Some toks ->
          length toks = nrows a
          /\ nrows b = nrows a
          /\ ncols b = (ncols a `max` S (S k))%nat
          /\ forall r row, rows a !! r = Some row ->
               exists row' tok old,
                 rows b !! r = Some row'
                 /\ toks !! r = Some tok
                 /\ (row ++ replicate (ncols b - ncols a) 0) !! S k = Some old
                 /\ (old = 0 -> row' !! S k = Some tok)
                 /\ (old <> 0 -> row' !! S k = Some old)
                 /\ forall c, c <> S k ->
                      row' !! c = (row ++ replicate (ncols b - ncols a) 0) !! c.
Proof.
  split; [exact sample_ids_wf|].
  exact (generate_writes_one_column_per_round true 8 sample_argmax
           sample_broadcast sample_batch 4 [61] sample_ids_wf).
Defined.

Lemma generate_nonpositive_witness :
  eval_max_length
    {| epochs := 10; eval_per_steps := 10; eval_per_epoches := 1;
       eval_max_length := -1; eval_stop_tokens := [2] |} <= 0
  /\ generate true 8 sample_argmax sample_broadcast sample_batch (-1) [2]
     = (sample_batch, [])
  /\ rounds (generate true 8 sample_argmax sample_broadcast
               sample_batch (-1) [2]).2 = 0%nat.
Proof.
  assert (H : -1 <= 0) by lia.
  split; [exact H|].
  exact (generate_nonpositive true 8 sample_argmax sample_broadcast
           sample_batch (-1) [2] H).
Defined.

Lemma generate_round_keeps_nonzero_witness :
  wf sample_ids
  /\ (0 < nrows sample_ids)%nat
  /\ exists row row' old tok,
       rows (pad_columns 1 sample_ids) !! 0%nat = Some row
       /\ row !! 1%nat = Some old
       /\ next_tokens true 8 sample_argmax sample_broadcast 0 sample_ids !! 0%nat
          = Some tok
       /\ rows (generate_round true 8 sample_argmax sample_broadcast
                  4 [61] 0 sample_ids).1.1 !! 0%nat = Some row'
       /\ (old <> 0 -> row' !! 1%nat = Some old)
       /\ (old = 0 -> row' !! 1%nat = Some tok)
       /\ (forall c, c <> 1%nat -> row' !! c = row !! c)
       /\ (forall row0 v, rows sample_ids !! 0%nat = Some row0 ->
             row0 !! 1%nat = Some v -> old = v).
Proof.
  assert (H : (0 < nrows sample_ids)%nat) by (cbn; lia).
  split; [exact sample_ids_wf|]. split; [exact H|].
  exact (generate_round_keeps_nonzero true 8 sample_argmax sample_broadcast
           4 [61] 0 sample_ids 0 sample_ids_wf H).
Defined.


(** *** Small runs for the further properties *)

Lemma generate_keeps_prompt_witness :
  wf (input_ids sample_batch)
  /\ rows (input_ids sample_batch) !! 0%nat = Some [5; 6; 0]
  /\ [5; 6; 0] !! 1%nat = Some 6
  /\ (6 <> 0 \/ 1%nat = 0%nat)
  /\ exists row',
       rows (input_ids (generate true 8 sample_argmax sample_broadcast
                          sample_batch 4 [61]).1) !! 0%nat = Some row'
       /\ row' !! 1%nat = Some 6.
Proof.
  assert (H : 6 <> 0 \/ 1%nat = 0%nat) by (left; lia).
  split; [exact sample_ids_wf|]. split; [reflexivity|].
  split; [reflexivity|]. split; [exact H|].
  exact (generate_keeps_prompt true 8 sample_argmax sample_broadcast
           sample_batch 4 [61] 0 1 [5; 6; 0] 6 sample_ids_wf eq_refl eq_refl H).
Defined.

Lemma generate_width_witness :
  wf (input_ids sample_batch)
  /\ wf (input_ids (generate true 8 sample_argmax sample_broadcast
                      sample_batch 4 [61]).1)
  /\ ncols (input_ids (generate true 8 sample_argmax sample_broadcast
                         sample_batch 4 [61]).1)
     = match rounds (generate true 8 sample_argmax sample_broadcast
                       sample_batch 4 [61]).2 with
       | O => ncols (input_ids sample_batch)
       | S k => (ncols (input_ids sample_batch) `max` S (S k))%nat
       end
  /\ (4 < Z.of_nat (ncols (input_ids sample_batch)) ->
      ncols (input_ids (generate true 8 sample_argmax sample_broadcast
                          sample_batch 4 [61]).1)
      = ncols (input_ids sample_batch)).
Proof.
  split; [exact sample_ids_wf|].
  exact (generate_width true 8 sample_argmax sample_broadcast
           sample_batch 4 [61] sample_ids_wf).
Defined.

Lemma generate_never_stops_witness :
  ([] = @nil Z \/ nrows (input_ids sample_batch) = 0%nat)
  /\ rounds (generate true 8 sample_argmax sample_broadcast
               sample_batch 4 []).2 = Z.to_nat 4
  /\ completed (generate true 8 sample_argmax sample_broadcast
                  sample_batch 4 []).2 = Z.to_nat 4.
Proof.
  assert (H : [] = @nil Z \/ nrows (input_ids sample_batch) = 0%nat)
    by (left; reflexivity).
  split; [exact H|].
  exact (generate_never_stops true 8 sample_argmax sample_broadcast
           sample_batch 4 [] H).
Defined.

Lemma generate_entries_witness :
  wf (input_ids sample_batch)
  /\ rows (input_ids (generate true 8 sample_argmax sample_broadcast
                        sample_batch 4 [61]).1) !! 1%nat
     = Some [7; 41; 51; 61]
  /\ [7; 41; 51; 61] !! 3%nat = Some 61
  /\ ((exists row, rows (input_ids sample_batch) !! 1%nat = Some row
                   /\ (row !! 3%nat = Some 61
                       \/ ((ncols (input_ids sample_batch) <= 3)%nat
                           /\ 61 = 0)))
      \/ (exists src toks,
            Broadcast src toks
              ∈ (generate true 8 sample_argmax sample_broadcast
                   sample_batch 4 [61]).2
            /\ toks !! 1%nat = Some 61)).
Proof.
  assert (H : rows (input_ids (generate true 8 sample_argmax sample_broadcast
                                 sample_batch 4 [61]).1) !! 1%nat
              = Some [7; 41; 51; 61]) by (by vm_compute).
  split; [exact sample_ids_wf|]. split; [exact H|]. split; [reflexivity|].
  exact (generate_entries true 8 sample_argmax sample_broadcast
           sample_batch 4 [61] 1 3 [7; 41; 51; 61] 61 sample_ids_wf H eq_refl).
Defined.

Lemma generate_writes_shared_labels_witness :
  labels_shared shared_batch = true
  /\ labels shared_batch = input_ids shared_batch
  /\ 2 < Z.of_nat (ncols (input_ids shared_batch))
  /\ labels (generate true 8 sample_argmax sample_broadcast shared_batch 2 []).1
     = input_ids (generate true 8 sample_argmax sample_broadcast
                    shared_batch 2 []).1
  /\ labels_shared (generate true 8 sample_argmax sample_broadcast
                      shared_batch 2 []).1 = true.
Proof.
  assert (H : 2 < Z.of_nat (ncols (input_ids shared_batch))) by (cbn; lia).
  split; [reflexivity|]. split; [reflexivity|]. split; [exact H|].
  exact (generate_writes_shared_labels true 8 sample_argmax sample_broadcast
           shared_batch 2 [] eq_refl eq_refl H).
Defined.

End Generate.

(** ** The broadcast of [generate], across the pipeline group *)
Module Pipeline.

Import Generate.









End Pipeline.

(** ** [ColossalaiTrainer.eval] *)
Module Evaluate.

Import Generate.

(** The calls [eval] makes, in program order.  [Generate] is the call of
    [self.generate] with its arguments and the calls it made in turn;
    [ComputeMetrics batch generated epoch step] is the call of
    [self.compute_metrics]. *)
Inductive event :=
| Generate (batch : Batch) (max_length : Z) (stop_tokens : list Z)
    (calls : list Generate.event)
| ComputeMetrics (batch generated : Batch) (epoch step : Z)
| SetPostfix (eval_step total : nat)
| EmptyCache
| PrintMemoryAllocated.

(** *** Observations on a trace *)

Definition is_generate (e : event) : bool :=
  match e with Generate _ _ _ _ => true | _ => false end.
Definition is_compute_metrics (e : event) : bool :=
  match e with ComputeMetrics _ _ _ _ => true | _ => false end.

(** The calls of [self.generate], and of [self.compute_metrics]. *)
Definition generations (t : list event) : list event := List.filter is_generate t.
Definition metrics (t : list event) : list event :=
  List.filter is_compute_metrics t.

(** The forward passes made inside the calls of [self.generate]. *)
Fixpoint forward_passes (t : list event) : nat :=
  match t with
  | [] => 0
  | Generate _ _ _ calls :: t' => rounds calls + forward_passes t'
  | _ :: t' => forward_passes t'
  end.

(** The documented setting [eval_max_length = -1], on the sample batch. *)
Definition minus_one_args : TrainerArgs :=
  {| epochs := 10; eval_per_steps := 10; eval_per_epoches := 1;
     eval_max_length := -1; eval_stop_tokens := [2] |}.

Section Evaluator.
(** As for [generate], with the engine and the collective indexed by the
    evaluation step they serve; [has_compute_metrics] tells whether
    [self.compute_metrics] is not [None]. *)
Variable is_pipeline_last_stage : bool.
Variable pipeline_world_size : Z.
Variable argmax_last : nat -> nat -> Tensor -> nat -> Z.
Variable broadcast : nat -> nat -> Z -> (nat -> Z) -> nat -> Z.
Variable has_compute_metrics : bool.
Variable args : TrainerArgs.

(** Lines 162-169: one round of the loop.  [generate] returns the batch
    object it was given, updated in place, so [batch] and
    [generated_batch] are one object when [compute_metrics] is called. *)
Definition eval_round (epoch step : Z) (total eval_step : nat) (batch : Batch)
  : list event :=
  let '(generated_batch, calls) :=
    generate is_pipeline_last_stage pipeline_world_size
      (argmax_last eval_step) (broadcast eval_step)
      batch (eval_max_length args) (eval_stop_tokens args) in
  [Generate batch (eval_max_length args) (eval_stop_tokens args) calls]
  ++ (if is_pipeline_last_stage && has_compute_metrics
      then [ComputeMetrics generated_batch generated_batch epoch step]
      else [])
  ++ [SetPostfix eval_step total].

(** [for eval_step, batch in enumerate(tqb, start=...)]. *)
Fixpoint eval_rounds (epoch step : Z) (total eval_step : nat)
    (batches : list Batch) : list event :=
  match batches with
  | [] => []
  | batch :: rest =>
      eval_round epoch step total eval_step batch
      ++ eval_rounds epoch step total (S eval_step) rest
  end.

(** Lines 160-171. *)
Definition eval (eval_dataloader : list Batch) (epoch step : Z) : list event :=
  eval_rounds epoch step (length eval_dataloader) 1 eval_dataloader
  ++ [EmptyCache; PrintMemoryAllocated].

(** What [compute_metrics] is called with when the batch came out of
    [generate] as [generated]. *)
Definition metrics_call (epoch step : Z) (generated : Batch) : event :=
  ComputeMetrics generated generated epoch step.

Lemma eval_round_unfold (epoch step : Z) (total eval_step : nat) (batch : Batch) :
  eval_round epoch step total eval_step batch
  = [Generate batch (eval_max_length args) (eval_stop_tokens args)
       (generate is_pipeline_last_stage pipeline_world_size
          (argmax_last eval_step) (broadcast eval_step)
          batch (eval_max_length args) (eval_stop_tokens args)).2]
    ++ (if is_pipeline_last_stage && has_compute_metrics
        then [metrics_call epoch step
                (generate is_pipeline_last_stage pipeline_world_size
                   (argmax_last eval_step) (broadcast eval_step)
                   batch (eval_max_length args) (eval_stop_tokens args)).1]
        else [])
    ++ [SetPostfix eval_step total].
Proof. unfold eval_round. by destruct (generate _ _ _ _ _ _ _). Qed.

Lemma calls_eval_rounds (epoch step : Z) (total eval_step : nat)
    (batches : list Batch) :
  generations (eval_rounds epoch step total eval_step batches)
  = imap (fun k batch =>
            Generate batch (eval_max_length args) (eval_stop_tokens args)
              (generate is_pipeline_last_stage pipeline_world_size
                 (argmax_last (eval_step + k)) (broadcast (eval_step + k))
                 batch (eval_max_length args) (eval_stop_tokens args)).2)
      batches
  /\ metrics (eval_rounds epoch step total eval_step batches)
     = if is_pipeline_last_stage && has_compute_metrics
       then imap (fun k batch =>
                    metrics_call epoch step
                      (generate is_pipeline_last_stage pipeline_world_size
                         (argmax_last (eval_step + k)) (broadcast (eval_step + k))
                         batch (eval_max_length args) (eval_stop_tokens args)).1)
              batches
       else [].
Proof.
  revert eval_step. induction batches as [|b rest IH]; intros eval_step.
  - split; [done|by destruct (_ && _)].
  - cbn [eval_rounds]. rewrite eval_round_unfold.
    destruct (IH (S eval_step)) as [Hg Hm].
    unfold generations, metrics in *.
    rewrite !List.filter_app, Hg, Hm, !imap_cons, Nat.add_0_r.
    split.
    + destruct (is_pipeline_last_stage && has_compute_metrics); cbn;
        f_equal; apply imap_ext; intros k x _; cbn;
        by replace (eval_step + S k)%nat with (S (eval_step + k)) by lia.
    + destruct (is_pipeline_last_stage && has_compute_metrics); cbn; [|done].
      f_equal. apply imap_ext. intros k x _. cbn.
      by replace (eval_step + S k)%nat with (S (eval_step + k)) by lia.
Qed.

Lemma eval_rounds_no_generation (epoch step : Z) (total eval_step : nat)
    (batches : list Batch) :
  eval_max_length args <= 0 ->
  forward_passes (eval_rounds epoch step total eval_step batches) = 0%nat
  /\ metrics (eval_rounds epoch step total eval_step batches)
     = if is_pipeline_last_stage && has_compute_metrics
       then metrics_call epoch step <$> batches else [].
Proof.
  intros Hml. revert eval_step.
  induction batches as [|b rest IH]; intros eval_step.
  - split; [done|by destruct (_ && _)].
  - cbn [eval_rounds]. rewrite eval_round_unfold, generate_unfold.
    replace (Z.to_nat (eval_max_length args)) with 0%nat by lia.
    destruct (IH (S eval_step)) as [Hfw Hm]. unfold metrics in *.
    destruct b as [ids lbl].
    destruct (is_pipeline_last_stage && has_compute_metrics); cbn;
      by rewrite ?Hfw, ?Hm.
Qed.

(** *** Properties of [eval] *)

(** X11.  [eval] calls [generate] once per evaluation batch, in order,
    with that batch, [eval_max_length] and [eval_stop_tokens].  On the last
    pipeline stage, when a function was given, it then calls
    [compute_metrics] once per batch, and both batch arguments of the call
    are the batch that call of [generate] returned (the prompt as it was
    yielded is gone), with the [epoch] and [step] [eval] was called with;
    otherwise [compute_metrics] is never called. *)
Theorem eval_calls (eval_dataloader : list Batch) (epoch step : Z) :
  generations (eval eval_dataloader epoch step)
  = imap (fun k batch =>
            Generate batch (eval_max_length args) (eval_stop_tokens args)
              (generate is_pipeline_last_stage pipeline_world_size
                 (argmax_last (S k)) (broadcast (S k))
                 batch (eval_max_length args) (eval_stop_tokens args)).2)
      eval_dataloader
  /\ metrics (eval eval_dataloader epoch step)
     = if is_pipeline_last_stage && has_compute_metrics
       then imap (fun k batch =>
                    let generated :=
                      (generate is_pipeline_last_stage pipeline_world_size
                         (argmax_last (S k)) (broadcast (S k))
                         batch (eval_max_length args) (eval_stop_tokens args)).1 in
                    ComputeMetrics generated generated epoch step)
              eval_dataloader
       else [].
Proof.
  unfold eval.
  destruct (calls_eval_rounds epoch step (length eval_dataloader) 1
              eval_dataloader) as [Hg Hm].
  unfold generations, metrics in *.
  rewrite !List.filter_app, Hg, Hm. cbn [List.filter is_generate is_compute_metrics].
  rewrite !app_nil_r. done.
Qed.

(** X12.  With [eval_max_length <= 0] (the documented setting [-1]
    included) an evaluation generates nothing: no forward pass is made, and
    [compute_metrics], where it is called, sees every batch of the
    dataloader as it was yielded, in order. *)
Theorem eval_without_generation (eval_dataloader : list Batch) (epoch step : Z) :
  eval_max_length args <= 0 ->
  forward_passes (eval eval_dataloader epoch step) = 0%nat
  /\ metrics (eval eval_dataloader epoch step)
     = if is_pipeline_last_stage && has_compute_metrics
       then metrics_call epoch step <$> eval_dataloader else [].
Proof.
  intros Hml. unfold eval.
  destruct (eval_rounds_no_generation epoch step (length eval_dataloader) 1
              eval_dataloader Hml) as [Hfw Hm].
  split.
  - revert Hfw. generalize (eval_rounds epoch step (length eval_dataloader) 1
                              eval_dataloader).
    intros t. induction t as [|e t IH]; [done|].
    destruct e; cbn; try exact IH. intros H.
    rewrite IH by lia. lia.
  - unfold metrics in *. rewrite List.filter_app, Hm. cbn. by rewrite app_nil_r.
Qed.

End Evaluator.


(** *** A small evaluation *)

Example eval_sample :
  eval true 8 (fun _ => sample_argmax) (fun _ => sample_broadcast) true
    minus_one_args [sample_batch; sample_batch] 3 20
  = [Generate sample_batch (-1) [2] [];
     ComputeMetrics sample_batch sample_batch 3 20; SetPostfix 1 2;
     Generate sample_batch (-1) [2] [];
     ComputeMetrics sample_batch sample_batch 3 20; SetPostfix 2 2;
     EmptyCache; PrintMemoryAllocated].
Proof. by vm_compute. Qed.

Lemma eval_without_generation_witness :
  eval_max_length minus_one_args <= 0
  /\ forward_passes
       (eval true 8 (fun _ => sample_argmax) (fun _ => sample_broadcast) true
          minus_one_args [sample_batch; sample_batch] 3 20) = 0%nat
  /\ metrics
       (eval true 8 (fun _ => sample_argmax) (fun _ => sample_broadcast) true
          minus_one_args [sample_batch; sample_batch] 3 20)
     = if true && true
       then metrics_call 3 20 <$> [sample_batch; sample_batch] else [].
Proof.
  assert (H : eval_max_length minus_one_args <= 0) by (cbn; lia).
  split; [exact H|].
  exact (eval_without_generation true 8 (fun _ => sample_argmax)
           (fun _ => sample_broadcast) true minus_one_args
           [sample_batch; sample_batch] 3 20 H).
Defined.

End Evaluate.

(** ** [collate_fn] of [examples/train_colossalai.py] *)
Module Collate.

Import Generate.

(** Where the slice [[:stop]] ends on an axis of [n] entries: a negative
    [stop] counts from the end, and the result is clamped to the axis. *)
Definition slice_stop (n : nat) (stop : Z) : nat :=
  if stop <? 0 then Z.to_nat (Z.of_nat n + stop) else (Z.to_nat stop `min` n)%nat.

(** [t[:, :stop]]. *)
Definition slice_columns (stop : Z) (t : Tensor) : Tensor :=
  {| ncols := slice_stop (ncols t) stop;
     rows := take (slice_stop (ncols t) stop) <$> rows t |}.

(** [[e['text'] for e in batch]]; [None] stands for [KeyError]. *)
Definition texts (batch : list (gmap string string)) : option (list string) :=
  mapM (fun e => e !! "text"%string) batch.

(** *** A small input

    A toy tokenizer: token 7 for every character, padded with 0 and cut to
    [max_length]; and two examples. *)
Definition sample_tokenizer (text : list string) (max_length : Z)
    (bos eos : bool) : Tensor :=
  {| ncols := Z.to_nat max_length;
     rows := (fun s => take (Z.to_nat max_length)
                         (replicate (String.length s) 7
                          ++ replicate (Z.to_nat max_length) 0)) <$> text |}.

Definition sample_examples : list (gmap string string) :=
  [ {[ "text"%string := "ab"%string ]};
    {[ "text"%string := "abc"%string; "meta"%string := "x"%string ]} ].

Definition sample_collated : Tensor :=
  {| ncols := 3; rows := [[7; 7; 0]; [7; 7; 7]] |}.

Section Collator.
(** The tokenizer, called with the texts, [max_length], [bos] and [eos]
    (padding to [max_length], truncating, returning tensors); only the
    [input_ids] of what it returns are read. *)
Variable tokenizer : list string -> Z -> bool -> bool -> Tensor.
(** Whether those [input_ids] are a [torch.int64] tensor already. *)
Variable input_ids_int64 : bool.

(** Lines 14-28.  [.long()] leaves the entries of an integer tensor as
    they are; on an [int64] tensor it returns the tensor itself, and the
    two results of lines 26-28 are that one object. *)
Definition collate_fn (batch : list (gmap string string)) (max_length : Z)
    (bos eos : bool) : option Batch :=
  text ← texts batch;
  let tknz_input_ids := tokenizer text max_length bos eos in
  let tknz_input_ids := slice_columns (max_length - 1) tknz_input_ids in
  Some {| input_ids := tknz_input_ids; labels := tknz_input_ids;
          labels_shared := input_ids_int64 |}.

Lemma slice_columns_wf (stop : Z) (t : Tensor) : wf t -> wf (slice_columns stop t).
Proof.
  unfold wf, slice_columns, slice_stop. cbn [ncols rows]. intros Ht.
  apply Forall_fmap. eapply Forall_impl; [exact Ht|].
  intros row Hrow. cbn in *. rewrite length_take.
  destruct (Z.ltb_spec stop 0); lia.
Qed.

(** *** Properties of [collate_fn] *)

(** X13.  [collate_fn] fails (with [KeyError]) exactly when some example
    of the batch has no ["text"] entry; otherwise it returns a batch. *)
Theorem collate_fn_key_error (batch : list (gmap string string))
    (max_length : Z) (bos eos : bool) :
  collate_fn batch max_length bos eos = None
  <-> exists e, e ∈ batch /\ e !! "text"%string = None.
Proof.
  unfold collate_fn, texts.
  destruct (mapM (fun e => e !! "text"%string) batch) as [text|] eqn:Htext; cbn.
  - split; [done|]. intros (e & He & Hnone).
    apply mapM_Some_1 in Htext.
    apply list_elem_of_lookup in He as [i Hi].
    destruct (Forall2_lookup_l _ _ _ _ _ Htext Hi) as (? & _ & ?). congruence.
  - split; [intros _|done].
    apply mapM_None in Htext. apply Exists_exists in Htext as (e & He & Hn).
    eauto.
Qed.

(** X14.  When it succeeds, [collate_fn] returns the same tensor as input
    and as labels: the tokenizer's [input_ids] with every row cut to the
    same prefix.  It has as many rows, is rectangular when the tokenizer's
    tensor is, and, when that tensor is [max_length] wide, it is
    [max_length - 1] wide: the last column is gone. *)
Theorem collate_fn_shape (batch : list (gmap string string)) (max_length : Z)
    (bos eos : bool) (b : Batch) :
  collate_fn batch max_length bos eos = Some b ->
  exists text,
    texts batch = Some text
    /\ length text = length batch
    /\ labels b = input_ids b
    /\ nrows (input_ids b) = nrows (tokenizer text max_length bos eos)
    /\ (forall r row, rows (tokenizer text max_length bos eos) !! r = Some row ->
          rows (input_ids b) !! r = Some (take (ncols (input_ids b)) row))
    /\ (wf (tokenizer text max_length bos eos) -> wf (input_ids b))
    /\ (ncols (tokenizer text max_length bos eos) = Z.to_nat max_length ->
        ncols (input_ids b) = Z.to_nat (max_length - 1)).
Proof.
  unfold collate_fn. destruct (texts batch) as [text|] eqn:Htext; [|done].
  cbn. intros [= <-]. exists text. cbn [input_ids labels].
  split; [done|]. split.
  { unfold texts in Htext. by apply length_mapM in Htext. }
  split; [done|]. split.
  { unfold nrows, slice_columns. cbn. by rewrite length_fmap. }
  split.
  { intros r row Hrow. unfold slice_columns. cbn [rows ncols].
    by rewrite list_lookup_fmap, Hrow. }
  split; [apply slice_columns_wf|].
  intros Hw. unfold slice_columns, slice_stop. cbn [ncols]. rewrite Hw.
  destruct (Z.ltb_spec (max_length - 1) 0); lia.
Qed.

End Collator.

(** *** [collate_fn], then [generate] *)

(** X15.  Collate at [max_length], then generate for fewer than
    [max_length - 1] rounds: when the tokenizer pads to a rectangular tensor
    [max_length] wide, [collate_fn] succeeds and [generate] returns a tensor
    of the collated width [max_length - 1].  The generated tokens go into
    the columns the tokenizer padded, none is appended, and every nonzero
    token of the first [max_length - 1] columns of the prompt is kept. *)
Theorem collate_then_generate
    (tokenizer : list string -> Z -> bool -> bool -> Tensor)
    (input_ids_int64 : bool)
    (is_pipeline_last_stage : bool) (pipeline_world_size : Z)
    (argmax_last : nat -> Tensor -> nat -> Z)
    (broadcast : nat -> Z -> (nat -> Z) -> nat -> Z)
    (batch : list (gmap string string)) (max_length : Z) (bos eos : bool)
    (text : list string) (eval_max_length : Z) (eval_stop_tokens : list Z) :
  texts batch = Some text ->
  wf (tokenizer text max_length bos eos) ->
  ncols (tokenizer text max_length bos eos) = Z.to_nat max_length ->
  eval_max_length < max_length - 1 ->
  exists b,
    collate_fn tokenizer input_ids_int64 batch max_length bos eos = Some b
    /\ let generated :=
         (generate is_pipeline_last_stage pipeline_world_size argmax_last
            broadcast b eval_max_length eval_stop_tokens).1 in
       wf (input_ids generated)
       /\ ncols (input_ids generated) = Z.to_nat (max_length - 1)
       /\ nrows (input_ids generated)
          = nrows (tokenizer text max_length bos eos)
       /\ forall r c row v,
            rows (tokenizer text max_length bos eos) !! r = Some row ->
            (c < Z.to_nat (max_length - 1))%nat ->
            row !! c = Some v -> v <> 0 ->
            exists row', rows (input_ids generated) !! r = Some row'
                         /\ row' !! c = Some v.
Proof.
  intros Htext Hwf Hw Hlt.
  set (t := slice_columns (max_length - 1) (tokenizer text max_length bos eos)).
  assert (Hcols : ncols t = Z.to_nat (max_length - 1)).
  { subst t. unfold slice_columns, slice_stop. cbn [ncols]. rewrite Hw.
    destruct (Z.ltb_spec (max_length - 1) 0); lia. }
  assert (Hwft : wf t) by (by apply slice_columns_wf).
  exists {| input_ids := t; labels := t; labels_shared := input_ids_int64 |}.
  split.
  { unfold collate_fn. by rewrite Htext. }
  cbn zeta. rewrite generate_unfold. cbn [fst input_ids].
  split; [by apply generate_loop_wf|]. split; [|split].
  - pose proof (generate_loop_ncols is_pipeline_last_stage pipeline_world_size
                  argmax_last broadcast eval_max_length eval_stop_tokens 0
                  (Z.to_nat eval_max_length) t) as Hn.
    pose proof (generate_loop_rounds is_pipeline_last_stage
                  pipeline_world_size argmax_last broadcast eval_max_length
                  eval_stop_tokens (seq 0 (Z.to_nat eval_max_length)) t) as Hr.
    rewrite length_seq in Hr. rewrite Hn.
    destruct (rounds _) as [|k]; cbn [Nat.add]; lia.
  - rewrite generate_loop_nrows. subst t. unfold nrows, slice_columns.
    cbn [rows]. by rewrite length_fmap.
  - intros r c row v Hrow Hc Hv Hnz.
    eapply (generate_loop_keeps _ _ _ _ _ _ _ _ r c (take (ncols t) row) v);
      [done| | |by left].
    + subst t. unfold slice_columns. cbn [rows ncols].
      by rewrite list_lookup_fmap, Hrow.
    + rewrite lookup_take_lt by lia. done.
Qed.

(** *** A small run *)

Example collate_fn_sample :
  collate_fn sample_tokenizer true sample_examples 4 true true
  = Some {| input_ids := sample_collated; labels := sample_collated;
            labels_shared := true |}.
Proof. by vm_compute. Qed.

Example collate_fn_sample_key_error :
  collate_fn sample_tokenizer true [ {[ "meta"%string := "x"%string ]} ] 4 true
    true
  = None.
Proof. by vm_compute. Qed.

(** [max_length = 0]: the slice is [[:, :-1]] and still drops one column
    of whatever the tokenizer returned. *)
Example slice_columns_negative_stop :
  slice_columns (0 - 1) sample_collated
  = {| ncols := 2; rows := [[7; 7]; [7; 7]] |}.
Proof. by vm_compute. Qed.

Lemma sample_tokenizer_wf :
  wf (sample_tokenizer ["ab"%string; "abc"%string] 4 true true).
Proof. vm_compute. repeat constructor. Qed.

Lemma collate_fn_shape_witness :
  collate_fn sample_tokenizer true sample_examples 4 true true
  = Some {| input_ids := sample_collated; labels := sample_collated;
            labels_shared := true |}
  /\ exists text,
       texts sample_examples = Some text
       /\ length text = length sample_examples
       /\ labels {| input_ids := sample_collated; labels := sample_collated;
            labels_shared := true |}
          = input_ids {| input_ids := sample_collated; labels := sample_collated;
            labels_shared := true |}
       /\ nrows sample_collated = nrows (sample_tokenizer text 4 true true)
       /\ (forall r row,
             rows (sample_tokenizer text 4 true true) !! r = Some row ->
             rows sample_collated !! r = Some (take (ncols sample_collated) row))
       /\ (wf (sample_tokenizer text 4 true true) -> wf sample_collated)
       /\ (ncols (sample_tokenizer text 4 true true) = Z.to_nat 4 ->
           ncols sample_collated = Z.to_nat (4 - 1)).
Proof.
  assert (H : collate_fn sample_tokenizer true sample_examples 4 true true
              = Some {| input_ids := sample_collated; labels := sample_collated;
            labels_shared := true |})
    by (by vm_compute).
  split; [exact H|].
  exact (collate_fn_shape sample_tokenizer true sample_examples 4 true true _ H).
Defined.

Lemma collate_then_generate_witness :
  texts sample_examples = Some ["ab"%string; "abc"%string]
  /\ wf (sample_tokenizer ["ab"%string; "abc"%string] 4 true true)
  /\ ncols (sample_tokenizer ["ab"%string; "abc"%string] 4 true true)
     = Z.to_nat 4
  /\ 2 < 4 - 1
  /\ exists b,
       collate_fn sample_tokenizer true sample_examples 4 true true = Some b
       /\ wf (input_ids (generate true 8 sample_argmax sample_broadcast
                           b 2 [2]).1)
       /\ ncols (input_ids (generate true 8 sample_argmax sample_broadcast
                              b 2 [2]).1) = Z.to_nat (4 - 1)
       /\ nrows (input_ids (generate true 8 sample_argmax sample_broadcast
                              b 2 [2]).1)
          = nrows (sample_tokenizer ["ab"%string; "abc"%string] 4 true true)
       /\ forall r c row v,
            rows (sample_tokenizer ["ab"%string; "abc"%string] 4 true true) !! r
            = Some row ->
            (c < Z.to_nat (4 - 1))%nat ->
            row !! c = Some v -> v <> 0 ->
            exists row',
              rows (input_ids (generate true 8 sample_argmax sample_broadcast
                                 b 2 [2]).1) !! r = Some row'
              /\ row' !! c = Some v.
Proof.
  assert (H1 : texts sample_examples = Some ["ab"%string; "abc"%string])
    by (by vm_compute).
  assert (H2 : 2 < 4 - 1) by lia.
  split; [exact H1|]. split; [exact sample_tokenizer_wf|].
  split; [reflexivity|]. split; [exact H2|].
  exact (collate_then_generate sample_tokenizer true true 8 sample_argmax
           sample_broadcast sample_examples 4 true true
           ["ab"%string; "abc"%string] 2 [2] H1 sample_tokenizer_wf eq_refl H2).
Defined.

End Collate.

(** ** The top-level handler of [examples/train_colossalai.py] *)
Module Script.

Local Open Scope string_scope.

(** What the [except:] block writes. *)
Inductive event :=
| PrintException
| PrintRank (rank : option string).

(** What the handler itself can raise: [int(os.environ.get(...))] on line
    81, [import rich] on line 82, [rich.console] on line 83. *)
Inductive exn := TypeError | ValueError | ModuleNotFoundError | AttributeError.

(** What lines 82-83 find in the process: the package [rich] may be
    missing; when it is there, [rich.console] is an attribute of the
    package only once some module has imported that submodule. *)
Inductive rich_package := NotInstalled | ConsoleNotLoaded | ConsoleLoaded.

Inductive result :=
| Done (out : list event)
| Raised (e : exn).

(** [f"{n}"] for an [int]: its decimal numeral. *)
Definition py_str (n : Z) : string := NilZero.string_of_int (Z.to_int n).

(** [int] on plain decimal numerals, as a launcher writes them. *)
Definition decimal_int (s : string) : option Z :=
  Z.of_int <$> NilZero.int_of_string s.

(** Eight processes, the last one: [RANK] is not ["0"], and the stack trace
    is printed. *)
Definition last_of_eight : gmap string string :=
  <["RANK" := "7"]> (<["WORLD_SIZE" := "8"]> ∅).

(** The environment a launcher gives process [rank] of [world_size]:
    both variables as decimal numerals, whatever else is set. *)
Definition launched (rank world_size : Z) (environ : gmap string string) : Prop :=
  environ !! "RANK" = Some (py_str rank)
  /\ environ !! "WORLD_SIZE" = Some (py_str world_size).

Section Handler.
(** The builtin [int] on a [str]; [None] stands for [ValueError]. *)
Variable py_int : string -> option Z.

(** Line 81: the test of the [if], with the short circuit of [or]. *)
Definition prints_here (environ : gmap string string) : exn + bool :=
  if bool_decide (environ !! "RANK" = Some "0") then inr true
  else
    match environ !! "WORLD_SIZE" with
    | None => inl TypeError
    | Some world_size =>
        match py_int world_size with
        | None => inl ValueError
        | Some n => inr (bool_decide (environ !! "RANK" = Some (py_str (n - 1))))
        end
    end.

(** Lines 80-85: the [except:] block, in a process where lines 82-84 go
    through ([rich.console] is loaded); [run_handler] below is the block
    in any process. *)
Definition handler (environ : gmap string string) : result :=
  match prints_here environ with
  | inl e => Raised e
  | inr shown =>
      Done ((if shown then [PrintException] else [])
            ++ [PrintRank (environ !! "RANK")])
  end.

(** Lines 77-85; [main_raises] tells whether [main()] raised. *)
Definition script (main_raises : bool) (environ : gmap string string) : result :=
  if main_raises then handler environ else Done [].

(** Lines 82-84: [import rich], [rich.console.Console()],
    [console.print_exception(show_locals=True)]. *)
Definition print_exception (rich : rich_package) : exn + list event :=
  match rich with
  | NotInstalled => inl ModuleNotFoundError
  | ConsoleNotLoaded => inl AttributeError
  | ConsoleLoaded => inr [PrintException]
  end.

(** Lines 80-85: the [except:] block.  An exception raised inside it ends
    the block: the rank line of line 85 is then not printed. *)
Definition run_handler (rich : rich_package) (environ : gmap string string)
  : result :=
  match prints_here environ with
  | inl e => Raised e
  | inr true =>
      match print_exception rich with
      | inl e => Raised e
      | inr out => Done (out ++ [PrintRank (environ !! "RANK")])
      end
  | inr false => Done [PrintRank (environ !! "RANK")]
  end.

(** Lines 77-85. *)
Definition run_script (rich : rich_package) (main_raises : bool)
    (environ : gmap string string) : result :=
  if main_raises then run_handler rich environ else Done [].




(** *** Further properties of the handler *)

Lemma run_handler_console_loaded (environ : gmap string string) :
  run_handler ConsoleLoaded environ = handler environ.
Proof.
  unfold run_handler, handler. by destruct (prints_here environ) as [?|[|]].
Qed.


End Handler.



(** A middle rank prints the rank line only; a rank other than 0 without
    [WORLD_SIZE] makes the handler raise. *)
Example middle_rank_silent :
  script decimal_int true (<["RANK" := "3"]> (<["WORLD_SIZE" := "8"]> ∅))
  = Done [PrintRank (Some "3")].
Proof. by vm_compute. Qed.

Example handler_raises_without_world_size :
  script decimal_int true (<["RANK" := "3"]> ∅) = Raised TypeError.
Proof. by vm_compute. Qed.


(** *** A launched job *)

(** [int(str(n))] is [n]. *)
Lemma decimal_int_py_str (n : Z) : decimal_int (py_str n) = Some n.
Proof.
  unfold decimal_int, py_str.
  rewrite NilZero.isi.
  - cbn. by rewrite DecimalZ.of_to.
  - destruct n; [done| |done]. cbn. intros [= H].
    by apply DecimalPos.Unsigned.to_uint_nonnil in H.
  - destruct n; [done|done|]. cbn. intros [= H].
    by apply DecimalPos.Unsigned.to_uint_nonnil in H.
Qed.

Lemma py_str_inj (n m : Z) : py_str n = py_str m -> n = m.
Proof.
  intros H. apply (f_equal decimal_int) in H.
  rewrite !decimal_int_py_str in H. by injection H.
Qed.

(** X17.  In a job launched with [RANK] and [WORLD_SIZE] set to decimal
    numerals, the test of line 81 never raises.  On rank 0 and on rank
    [world_size - 1] the handler goes on to print the stack trace, which
    needs [rich.console] to be loaded: otherwise it raises
    [AttributeError] (or [ModuleNotFoundError] without [rich]) and prints
    nothing.  On every other rank it prints the rank line only. *)
Theorem launched_job_outcome (rich : rich_package)
    (rank world_size : Z) (environ : gmap string string) :
  launched rank world_size environ ->
  run_script decimal_int rich true environ
  = if ((rank =? 0) || (rank =? world_size - 1))%Z
    then match rich with
         | NotInstalled => Raised ModuleNotFoundError
         | ConsoleNotLoaded => Raised AttributeError
         | ConsoleLoaded =>
             Done [PrintException; PrintRank (Some (py_str rank))]
         end
    else Done [PrintRank (Some (py_str rank))].
Proof.
  intros [Hrank Hws]. unfold run_script, run_handler, prints_here.
  rewrite Hrank, Hws, decimal_int_py_str.
  destruct (bool_decide_reflect (Some (py_str rank) = Some "0")) as [H0|H0].
  { injection H0 as H0. apply (py_str_inj rank 0) in H0 as ->.
    by destruct rich. }
  destruct (Z.eqb_spec rank 0) as [->|Hr0]; [by destruct H0|].
  destruct (bool_decide_reflect
              (Some (py_str rank) = Some (py_str (world_size - 1))))
    as [Hl|Hl].
  - injection Hl as Hl. apply py_str_inj in Hl as ->.
    rewrite Z.eqb_refl. by destruct rich.
  - destruct (Z.eqb_spec rank (world_size - 1)) as [->|_]; [by destruct Hl|done].
Qed.

(** The last of eight ranks, in a process that has not loaded
    [rich.console]: the handler raises on line 83. *)
Lemma launched_job_outcome_witness :
  launched 7 8 last_of_eight
  /\ run_script decimal_int ConsoleNotLoaded true last_of_eight
     = if ((7 =? 0) || (7 =? 8 - 1))%Z
       then Raised AttributeError
       else Done [PrintRank (Some (py_str 7))].
Proof.
  assert (H : launched 7 8 last_of_eight) by (split; by vm_compute).
  split; [exact H|].
  exact (launched_job_outcome ConsoleNotLoaded 7 8 last_of_eight H).
Defined.

End Script.
